(** * NestedJSONLoader: flattening a nested JSON document into records

    A shallow embedding of
    [langchain/document_loaders/nested_json_loader.py]: the recursive
    [flatten_json] closure of [_flatten__nested_json], and [load], which
    turns every entry of the flattened mapping into a [Document].

    Python values are embedded as follows.
    - A parsed JSON value is a [json] tree.  A [dict] is an association
      list in insertion order; [json.loads] only builds dicts with
      distinct keys, and every theorem below holds for all association
      lists, so none needs that as a hypothesis.
    - A [str] is a [string]; each character stands for the code point of
      the same number (0..255).
    - A [float] is carried as the text [json.dumps] prints for it: the
      loader never computes on numbers, it only copies and prints them.
    - An exception is the [Raise] branch of [result].
    - Recursion is as deep as the tree: the interpreter's recursion limit
      is not part of the model. *)

From Stdlib Require Import String Ascii List ZArith Lia Bool Arith.
From Stdlib Require Import DecimalString.
Import ListNotations.

Local Open Scope list_scope.
Local Open Scope string_scope.

(** ** Exceptions *)

(** [FileAccessError]: [Path.read_text] failed; [ParseError]:
    [json.loads] failed; [TypeError]: Python's own [TypeError]. *)
Inductive exn : Type :=
| FileAccessError
| ParseError
| TypeError.

Inductive result (A : Type) : Type :=
| Ok (a : A)
| Raise (e : exn).

Arguments Ok {A} a.
Arguments Raise {A} e.

Definition bind {A B : Type} (r : result A) (k : A -> result B) : result B :=
  match r with
  | Ok a => k a
  | Raise e => Raise e
  end.

Notation "x <- r ;; k" := (bind r (fun x => k))
  (at level 61, r at next level, right associativity).

(** ** Python values *)

#[warnings="-register-all"]
Inductive json : Type :=
| JNull
| JBool (b : bool)
| JInt (n : Z)
| JFloat (repr : string)
| JStr (s : string)
| JList (l : list json)
| JDict (d : list (string * json)).

(** A Python [dict] with [str] keys, in insertion order. *)
Definition pydict : Type := list (string * json).

(** Induction over a tree, with the hypothesis for every element of a
    list and every value of a dict. *)
Section JsonInduction.
Variable P : json -> Prop.
Hypothesis HNull : P JNull.
Hypothesis HBool : forall b, P (JBool b).
Hypothesis HInt : forall n, P (JInt n).
Hypothesis HFloat : forall r, P (JFloat r).
Hypothesis HStr : forall s, P (JStr s).
Hypothesis HList : forall l, Forall P l -> P (JList l).
Hypothesis HDict : forall d, Forall (fun kv => P (snd kv)) d -> P (JDict d).

Fixpoint json_ind' (j : json) : P j :=
  match j with
  | JNull => HNull
  | JBool b => HBool b
  | JInt n => HInt n
  | JFloat r => HFloat r
  | JStr s => HStr s
  | JList l =>
      HList l ((fix all (l : list json) : Forall P l :=
                  match l with
                  | [] => Forall_nil P
                  | x :: l' => Forall_cons x (json_ind' x) (all l')
                  end) l)
  | JDict d =>
      HDict d ((fix all (d : list (string * json))
                  : Forall (fun kv => P (snd kv)) d :=
                  match d with
                  | [] => Forall_nil _
                  | kv :: d' => Forall_cons kv (json_ind' (snd kv)) (all d')
                  end) d)
  end.
End JsonInduction.

(** [type(x) is dict], [type(x) is list], and the remaining shapes. *)
Definition is_scalar (j : json) : bool :=
  match j with
  | JList _ | JDict _ => false
  | _ => true
  end.

(** ** Strings *)

(** [s[:-1]]: all but the last character; the empty string stays empty. *)
Fixpoint drop_last (s : string) : string :=
  match s with
  | EmptyString => EmptyString
  | String _ EmptyString => EmptyString
  | String c rest => String c (drop_last rest)
  end.

(** The last character of [s], if any. *)
Fixpoint last_char (s : string) : option ascii :=
  match s with
  | EmptyString => None
  | String c EmptyString => Some c
  | String _ rest => last_char rest
  end.

Definition sep : ascii := "_"%char.

Definition ends_with_sep (s : string) : bool :=
  match last_char s with
  | Some c => Ascii.eqb c sep
  | None => false
  end.

(** [str(i)] for a non-negative [int]. *)
Definition str_of_nat (i : nat) : string :=
  NilEmpty.string_of_uint (Nat.to_uint i).

(** [str(n)] for any [int]. *)
Definition str_of_int (n : Z) : string :=
  NilZero.string_of_int (Z.to_int n).

(** ** Dictionaries *)

(** [d[k]]; [None] stands for [KeyError]. *)
Fixpoint dict_get (k : string) (d : pydict) : option json :=
  match d with
  | [] => None
  | (k', v) :: d' => if String.eqb k k' then Some v else dict_get k d'
  end.

(** [d[k] = v]: an existing key keeps its place and takes the new value,
    a new key goes to the end. *)
Fixpoint dict_set (k : string) (v : json) (d : pydict) : pydict :=
  match d with
  | [] => [(k, v)]
  | (k', v') :: d' =>
      if String.eqb k k' then (k', v) :: d' else (k', v') :: dict_set k v d'
  end.

Definition keys (d : pydict) : list string := map fst d.
Definition values (d : pydict) : list json := map snd d.

(** ** The flattener *)

(** [a[a['identifier']]], the body of the [try]; [None] when it raises.
    Subscripting anything but a dict with a [str] raises; a dict without
    the key raises; a key that is a list or a dict is unhashable and
    raises; a key that is not a [str] is equal to no key of a parsed
    object and raises. *)
Definition resolved_identifier (a : json) : option json :=
  match a with
  | JDict d =>
      match dict_get "identifier" d with
      | Some (JStr field) => dict_get field d
      | _ => None
      end
  | _ => None
  end.

(** The [try: identifier = a[a['identifier']]  except: identifier = str(i)]
    block: the bare [except] catches whatever the lookup raises. *)
Definition identifier_segment (a : json) (i : nat) : json :=
  match resolved_identifier a with
  | Some identifier => identifier
  | None => JStr (str_of_nat i)
  end.

(** [key_name + identifier]: [str.__add__] accepts a [str] only. *)
Definition str_add (key_name : string) (identifier : json) : result string :=
  match identifier with
  | JStr s => Ok (key_name ++ s)
  | _ => Raise TypeError
  end.

(** [flatten_json(json_data, key_name)], with the enclosing [out] threaded
    through. *)
Fixpoint flatten_json (json_data : json) (key_name : string) (out : pydict)
  {struct json_data} : result pydict :=
  match json_data with
  | JDict d =>
      (fix for_items (items : list (string * json)) (out : pydict)
         : result pydict :=
         match items with
         | [] => Ok out
         | (a, v) :: rest =>
             if String.eqb a "identifier" then for_items rest out
             else
               out' <- flatten_json v (key_name ++ a ++ "_") out ;;
               for_items rest out'
         end) d out
  | JList l =>
      (fix for_elems (elems : list json) (i : nat) (out : pydict)
         : result pydict :=
         match elems with
         | [] => Ok out
         | a :: rest =>
             let identifier := identifier_segment a i in
             prefix <- str_add key_name identifier ;;
             out' <- flatten_json a (prefix ++ "_") out ;;
             for_elems rest (S i) out'
         end) l 0 out
  | _ => Ok (dict_set (drop_last key_name) json_data out)
  end.

(** ** [json.dumps]

    The standard encoder with its defaults: [ensure_ascii=True],
    separators [", "] and [": "]. *)

Definition dquote : ascii := ascii_of_nat 34.
Definition backslash : ascii := ascii_of_nat 92.

Definition hex_digit (n : nat) : ascii :=
  match n with
  | 0 => "0" | 1 => "1" | 2 => "2" | 3 => "3" | 4 => "4" | 5 => "5"
  | 6 => "6" | 7 => "7" | 8 => "8" | 9 => "9" | 10 => "a" | 11 => "b"
  | 12 => "c" | 13 => "d" | 14 => "e" | _ => "f"
  end%char.

(** One character under [ESCAPE_ASCII]: the quote, the backslash and
    everything outside [' '..'~'] are escaped. *)
Definition escape_char (c : ascii) : string :=
  let n := nat_of_ascii c in
  if Nat.eqb n 34 then String backslash (String dquote "")
  else if Nat.eqb n 92 then String backslash (String backslash "")
  else if Nat.eqb n 10 then String backslash "n"
  else if Nat.eqb n 13 then String backslash "r"
  else if Nat.eqb n 9 then String backslash "t"
  else if Nat.eqb n 12 then String backslash "f"
  else if Nat.eqb n 8 then String backslash "b"
  else if (Nat.ltb n 32 || Nat.ltb 126 n)%bool then
    String backslash
      ("u00" ++ String (hex_digit (n / 16)) (String (hex_digit (n mod 16)) ""))
  else String c "".

Fixpoint escape_chars (s : string) : string :=
  match s with
  | EmptyString => EmptyString
  | String c rest => escape_char c ++ escape_chars rest
  end.

Definition encode_basestring_ascii (s : string) : string :=
  String dquote (escape_chars s ++ String dquote "").

Fixpoint json_dumps (o : json) : string :=
  match o with
  | JNull => "null"
  | JBool true => "true"
  | JBool false => "false"
  | JInt n => str_of_int n
  | JFloat repr => repr
  | JStr s => encode_basestring_ascii s
  | JList l =>
      "[" ++
      (fix elems (l : list json) : string :=
         match l with
         | [] => ""
         | x :: rest =>
             match rest with
             | [] => json_dumps x
             | _ => json_dumps x ++ ", " ++ elems rest
             end
         end) l
      ++ "]"
  | JDict d =>
      "{" ++
      (fix items (d : list (string * json)) : string :=
         match d with
         | [] => ""
         | (k, v) :: rest =>
             let item := encode_basestring_ascii k ++ ": " ++ json_dumps v in
             match rest with
             | [] => item
             | _ => item ++ ", " ++ items rest
             end
         end) d
      ++ "}"
  end.

(** ** The loader *)

(** [langchain.docstore.document.Document]. *)
Record Document : Type := mkDocument {
  page_content : json;
  metadata : pydict
}.

Record NestedJSONLoader : Type := mkLoader {
  file_path : string;
  _metadata_func : option (pydict -> pydict -> pydict)
}.

(** [enumerate(l, start)]. *)
Fixpoint enumerate {A : Type} (l : list A) (start : nat) : list (nat * A) :=
  match l with
  | [] => []
  | x :: rest => (start, x) :: enumerate rest (S start)
  end.

(** [d or alt] for a dict [d]: the empty dict is falsy. *)
Definition dict_or (d : pydict) (alt : json) : json :=
  match d with
  | [] => alt
  | _ => JDict d
  end.

(** The body of the [for] loop of [load] up to the [Document] it appends. *)
Definition load_record (self : NestedJSONLoader) (i : nat)
    (sample : string * json) : Document :=
  let metadata :=
    [("source", JStr (file_path self)); ("seq_num", JInt (Z.of_nat i))] in
  let text := dict_or [sample] (JStr "") in
  let text :=
    match text with
    | JDict _ | JList _ => JStr (json_dumps text)
    | _ => text
    end in
  mkDocument text metadata.

Section Loader.
(** The collaborators outside the repository: [Path.resolve],
    [Path.read_text] ([None]: the read fails) and [json.loads] ([None]:
    the text is not JSON). *)
Variable resolve : string -> string.
Variable read_text : string -> option string.
Variable json_loads : string -> option json.

(** [__init__]: the path is resolved, the callback is stored. *)
Definition __init__ (path : string)
    (metadata_func : option (pydict -> pydict -> pydict))
  : NestedJSONLoader :=
  mkLoader (resolve path) metadata_func.

(** [_flatten__nested_json]: parse, then flatten into a fresh [out]. *)
Definition _flatten__nested_json (json_text : string) : result pydict :=
  match json_loads json_text with
  | Some json_data => flatten_json json_data "" []
  | None => Raise ParseError
  end.

(** [load]: the file is read first, then flattened, then every entry of
    the mapping is appended to [docs] as a [Document]. *)
Definition load (self : NestedJSONLoader) : result (list Document) :=
  match read_text (file_path self) with
  | None => Raise FileAccessError
  | Some json_text =>
      data <- _flatten__nested_json json_text ;;
      Ok (fold_left
            (fun docs '(i, sample) => docs ++ [load_record self i sample])%list
            (enumerate data 1) [])
  end.
End Loader.

(** [s] between double quotes. *)
Definition q (s : string) : string := String dquote (s ++ String dquote "").

(** ** The two loops of [flatten_json] as functions of their own *)

Fixpoint flatten_items (key_name : string) (items : list (string * json))
    (out : pydict) : result pydict :=
  match items with
  | [] => Ok out
  | (a, v) :: rest =>
      if String.eqb a "identifier" then flatten_items key_name rest out
      else
        out' <- flatten_json v (key_name ++ a ++ "_") out ;;
        flatten_items key_name rest out'
  end.

Fixpoint flatten_elems (key_name : string) (elems : list json) (i : nat)
    (out : pydict) : result pydict :=
  match elems with
  | [] => Ok out
  | a :: rest =>
      prefix <- str_add key_name (identifier_segment a i) ;;
      out' <- flatten_json a (prefix ++ "_") out ;;
      flatten_elems key_name rest (S i) out'
  end.

(** ** The walk of the input tree

    The accumulated key path and the value of every leaf, in the order in
    which the traversal reaches them: object pairs in order, the
    ["identifier"] pair skipped; array elements in order, each under its
    identifier segment. *)
Fixpoint leaf_paths (value : json) (path : string)
  {struct value} : result (list (string * json)) :=
  match value with
  | JDict d =>
      (fix pairs (d : list (string * json)) : result (list (string * json)) :=
         match d with
         | [] => Ok []
         | (k, v) :: rest =>
             if String.eqb k "identifier" then pairs rest
             else
               here <- leaf_paths v (path ++ k ++ "_") ;;
               after <- pairs rest ;;
               Ok (here ++ after)%list
         end) d
  | JList l =>
      (fix elems (l : list json) (i : nat) : result (list (string * json)) :=
         match l with
         | [] => Ok []
         | a :: rest =>
             prefix <- str_add path (identifier_segment a i) ;;
             here <- leaf_paths a (prefix ++ "_") ;;
             after <- elems rest (S i) ;;
             Ok (here ++ after)%list
         end) l 0
  | _ => Ok [(path, value)]
  end.

Fixpoint pair_paths (path : string) (d : list (string * json))
  : result (list (string * json)) :=
  match d with
  | [] => Ok []
  | (k, v) :: rest =>
      if String.eqb k "identifier" then pair_paths path rest
      else
        here <- leaf_paths v (path ++ k ++ "_") ;;
        after <- pair_paths path rest ;;
        Ok (here ++ after)%list
  end.

Fixpoint elem_paths (path : string) (l : list json) (i : nat)
  : result (list (string * json)) :=
  match l with
  | [] => Ok []
  | a :: rest =>
      prefix <- str_add path (identifier_segment a i) ;;
      here <- leaf_paths a (prefix ++ "_") ;;
      after <- elem_paths path rest (S i) ;;
      Ok (here ++ after)%list
  end.

(** Recording one leaf: [out[key_name[:-1]] = json_data]. *)
Definition record_leaf (out : pydict) (leaf : string * json) : pydict :=
  dict_set (drop_last (fst leaf)) (snd leaf) out.

Definition record_all (leaves : list (string * json)) (out : pydict) : pydict :=
  fold_left record_leaf leaves out.

(** The final key of every leaf, in visiting order. *)
Definition final_keys (leaves : list (string * json)) : list string :=
  map (fun leaf => drop_last (fst leaf)) leaves.

(** ** What [load] returns *)

(** The records for a flattened mapping: one per entry, numbered from 1. *)
Definition load_records (self : NestedJSONLoader) (data : pydict)
  : list Document :=
  map (fun '(i, sample) => load_record self i sample) (enumerate data 1).

(** The mapping the flattener builds from the leaves of a walk. *)
Definition flattened (leaves : list (string * json)) : pydict :=
  record_all leaves [].

(** The value [v] is the value of the entry a record was made from. *)
Definition record_of_value (v : json) (doc : Document) : Prop :=
  exists k, page_content doc = JStr (json_dumps (JDict [(k, v)])).

(** ** Shapes of input trees *)

(** Every scalar of the tree. *)
Fixpoint scalar_leaves (j : json) : list json :=
  match j with
  | JDict d => flat_map (fun kv => scalar_leaves (snd kv)) d
  | JList l => flat_map scalar_leaves l
  | _ => [j]
  end.

(** Every scalar of the tree that is not below an ["identifier"] pair. *)
Fixpoint emitted_leaves (j : json) : list json :=
  match j with
  | JDict d =>
      flat_map
        (fun kv =>
           if String.eqb (fst kv) "identifier" then []
           else emitted_leaves (snd kv)) d
  | JList l => flat_map emitted_leaves l
  | _ => [j]
  end.

(** Every array element of the tree has an identifier that resolves. *)
Fixpoint identifiers_resolvable (j : json) : bool :=
  match j with
  | JDict d => forallb (fun kv => identifiers_resolvable (snd kv)) d
  | JList l =>
      forallb
        (fun a =>
           match resolved_identifier a with
           | Some _ => identifiers_resolvable a
           | None => false
           end) l
  | _ => true
  end.

(** A path segment that is not empty and does not end with the separator. *)
Definition clean_segment (s : string) : bool :=
  negb (String.eqb s "") && negb (ends_with_sep s).

(** Every object key the flattener descends through and every resolved
    identifier that is a [str] is a clean segment. *)
Fixpoint clean_segments (j : json) : bool :=
  match j with
  | JDict d =>
      forallb
        (fun kv =>
           String.eqb (fst kv) "identifier"
           || (clean_segment (fst kv) && clean_segments (snd kv))) d
  | JList l =>
      forallb
        (fun a =>
           match resolved_identifier a with
           | Some (JStr s) => clean_segment s
           | _ => true
           end && clean_segments a) l
  | _ => true
  end.

(** A leaf path [p] reached from [path] through the tree [j]: it is
    [path] itself, or it ends with the separator, and what is left once
    the separator is taken off ends with the separator only if some
    segment of [j] is not clean. *)
Definition below (j : json) (path p : string) : Prop :=
  p = path
  \/ (p = drop_last p ++ "_"
      /\ (clean_segments j = true -> ends_with_sep (drop_last p) = false)).

(** ** Concrete inputs *)

(** A file system with one readable file. *)
Definition one_file (path text : string) : string -> option string :=
  fun p => if String.eqb p path then Some text else None.

(** [json.loads] where it is known: the text [text] parses to [j]. *)
Definition parses_to (text : string) (j : json) : string -> option json :=
  fun t => if String.eqb t text then Some j else None.

(** [{"key": [{"identifier": "text", "text": "value1"},
              {"identifier": "text", "text": "value2"}]}], the example of
    the class docstring. *)
Definition doc_docstring : json :=
  JDict [("key",
          JList [JDict [("identifier", JStr "text"); ("text", JStr "value1")];
                 JDict [("identifier", JStr "text"); ("text", JStr "value2")]])].

Definition text_docstring : string :=
  "{" ++ q "key" ++ ": [{" ++ q "identifier" ++ ": " ++ q "text" ++ ", "
  ++ q "text" ++ ": " ++ q "value1" ++ "}, {" ++ q "identifier" ++ ": "
  ++ q "text" ++ ", " ++ q "text" ++ ": " ++ q "value2" ++ "}]}".

(** [{"list": [10, 20]}]. *)
Definition doc_list : json := JDict [("list", JList [JInt 10; JInt 20])].

(** [{"a": 1}]. *)
Definition doc_one : json := JDict [("a", JInt 1)].
Definition text_one : string := "{" ++ q "a" ++ ": 1}".

(** [{"a": null}]. *)
Definition doc_null : json := JDict [("a", JNull)].
Definition text_null : string := "{" ++ q "a" ++ ": null}".

(** [[{"identifier": "id", "id": 5}]]: the identifier names a field that
    holds a number. *)
Definition doc_numeric_id : json :=
  JList [JDict [("identifier", JStr "id"); ("id", JInt 5)]].
Definition text_numeric_id : string :=
  "[{" ++ q "identifier" ++ ": " ++ q "id" ++ ", " ++ q "id" ++ ": 5}]".

(** [{"a_": 1}]: an object key that ends with the separator. *)
Definition doc_sep_key : json := JDict [("a_", JInt 1)].

(** [{"a": {"x_y": 1}, "a_x": {"y": 2}}]: two leaves with one key path. *)
Definition doc_collision : json :=
  JDict [("a", JDict [("x_y", JInt 1)]); ("a_x", JDict [("y", JInt 2)])].

(** [[{"identifier": "t", "t": "v", "u": 1},
      {"identifier": "t", "t": "v", "u": 2}]]: every element has an
    identifier that resolves, to the same segment. *)
Definition doc_twins : json :=
  JList [JDict [("identifier", JStr "t"); ("t", JStr "v"); ("u", JInt 1)];
         JDict [("identifier", JStr "t"); ("t", JStr "v"); ("u", JInt 2)]].
Definition text_twins : string :=
  "[{" ++ q "identifier" ++ ": " ++ q "t" ++ ", " ++ q "t" ++ ": " ++ q "v"
  ++ ", " ++ q "u" ++ ": 1}, {" ++ q "identifier" ++ ": " ++ q "t" ++ ", "
  ++ q "t" ++ ": " ++ q "v" ++ ", " ++ q "u" ++ ": 2}]".

(** A callback that replaces the metadata. *)
Definition replace_metadata (entry default : pydict) : pydict :=
  [("source", JStr "elsewhere"); ("seq_num", JInt 99)].

(** ** Further shapes of input trees *)

(** Wherever the flattener goes (not below an ["identifier"] pair), the
    identifier of an array element does not resolve or resolves to a
    [str]. *)
Fixpoint str_identifiers (j : json) : bool :=
  match j with
  | JDict d =>
      forallb
        (fun kv =>
           String.eqb (fst kv) "identifier" || str_identifiers (snd kv)) d
  | JList l =>
      forallb
        (fun a =>
           match resolved_identifier a with
           | Some (JStr _) | None => true
           | Some _ => false
           end && str_identifiers a) l
  | _ => true
  end.

(** The keys of [l] in the order of their first occurrence. *)
Fixpoint first_occurrences (l : list string) : list string :=
  match l with
  | [] => []
  | k :: rest =>
      k :: filter (fun k' => negb (String.eqb k' k)) (first_occurrences rest)
  end.

(** [k in d]. *)
Definition has_key (d : pydict) (k : string) : bool :=
  existsb (String.eqb k) (keys d).

(** A leaf or an entry with [pre] put before its path or key. *)
Definition shift_leaf (pre : string) (leaf : string * json) : string * json :=
  (pre ++ fst leaf, snd leaf).



(** [[{"identifier": "t", "t": "v"}, 7, {"x": 8}]]: an element whose
    identifier resolves, then two that fall back to their index. *)
Definition doc_mixed : json :=
  JList [JDict [("identifier", JStr "t"); ("t", JStr "v")];
         JInt 7;
         JDict [("x", JInt 8)]].

(** [{"a": {"x_y": 1}, "b": 0, "a_x": {"y": 2}}]: the first and the last
    leaf have one key path. *)
Definition doc_revisit : json :=
  JDict [("a", JDict [("x_y", JInt 1)]); ("b", JInt 0);
         ("a_x", JDict [("y", JInt 2)])].

(** * Proofs *)

(** ** The definitions at work *)

Example flatten_doc_example :
  flatten_json
    (JDict [("key", JList [JDict [("identifier", JStr "text"); ("text", JStr "value1")];
                           JDict [("identifier", JStr "text"); ("text", JStr "value2")]])])
    "" []
  = Ok [("key_value1_text", JStr "value1"); ("key_value2_text", JStr "value2")].
Proof. reflexivity. Qed.

Example dumps_example :
  json_dumps (JDict [("a_b", JNull); ("c", JList [JInt (-3); JStr "x"; JBool true])])
  = "{" ++ q "a_b" ++ ": null, " ++ q "c" ++ ": [-3, " ++ q "x" ++ ", true]}".
Proof. reflexivity. Qed.

(** ** Unfolding the loops *)

Lemma flatten_json_dict (d : list (string * json)) key_name out :
  flatten_json (JDict d) key_name out = flatten_items key_name d out.
Proof.
  simpl. revert out.
  induction d as [|[a v] rest IH]; intros out; simpl; [reflexivity|].
  destruct (String.eqb a "identifier"); [apply IH|].
  destruct (flatten_json v _ out); simpl; [apply IH|reflexivity].
Qed.

Lemma flatten_json_list (l : list json) key_name out :
  flatten_json (JList l) key_name out = flatten_elems key_name l 0 out.
Proof.
  simpl. generalize 0. revert out.
  induction l as [|a rest IH]; intros out i; simpl; [reflexivity|].
  destruct (str_add key_name (identifier_segment a i)); simpl; [|reflexivity].
  destruct (flatten_json a _ out); simpl; [apply IH|reflexivity].
Qed.

Lemma leaf_paths_dict (d : list (string * json)) path :
  leaf_paths (JDict d) path = pair_paths path d.
Proof.
  simpl.
  induction d as [|[k v] rest IH]; simpl; [reflexivity|].
  destruct (String.eqb k "identifier"); [apply IH|].
  destruct (leaf_paths v _); simpl; [rewrite IH|]; reflexivity.
Qed.

Lemma leaf_paths_list (l : list json) path :
  leaf_paths (JList l) path = elem_paths path l 0.
Proof.
  simpl. generalize 0.
  induction l as [|a rest IH]; intros i; simpl; [reflexivity|].
  destruct (str_add path (identifier_segment a i)); simpl; [|reflexivity].
  destruct (leaf_paths a _); simpl; [rewrite IH|]; reflexivity.
Qed.

Lemma record_all_app ws1 ws2 out :
  record_all (ws1 ++ ws2)%list out = record_all ws2 (record_all ws1 out).
Proof. apply fold_left_app. Qed.

(** ** The flattener records the leaves of the walk, in order *)

Lemma flatten_json_walk (j : json) :
  forall key_name out,
    flatten_json j key_name out =
    (leaves <- leaf_paths j key_name ;; Ok (record_all leaves out)).
Proof.
  induction j as [| b | n | r | s | l IH | d IH] using json_ind';
    intros key_name out; try reflexivity.
  - rewrite flatten_json_list, leaf_paths_list.
    generalize 0. revert out.
    induction IH as [|a rest Ha _ IHrest]; intros out i; simpl; [reflexivity|].
    destruct (str_add key_name (identifier_segment a i)) as [prefix|e];
      simpl; [|reflexivity].
    rewrite Ha.
    destruct (leaf_paths a (prefix ++ "_")) as [here|e]; simpl; [|reflexivity].
    rewrite IHrest.
    destruct (elem_paths key_name rest (S i)) as [after|e]; simpl;
      [|reflexivity].
    now rewrite record_all_app.
  - rewrite flatten_json_dict, leaf_paths_dict.
    revert out.
    induction IH as [|[a v] rest Hv _ IHrest]; intros out; simpl;
      [reflexivity|].
    destruct (String.eqb a "identifier"); [apply IHrest|].
    simpl in Hv. rewrite Hv.
    destruct (leaf_paths v (key_name ++ a ++ "_")) as [here|e]; simpl;
      [|reflexivity].
    rewrite IHrest.
    destruct (pair_paths key_name rest) as [after|e]; simpl; [|reflexivity].
    now rewrite record_all_app.
Qed.

(** ** [load] as a pipeline *)

Lemma load_loop_map (self : NestedJSONLoader) (items : list (nat * (string * json)))
    (docs : list Document) :
  fold_left
    (fun docs '(i, sample) => docs ++ [load_record self i sample])%list
    items docs
  = (docs ++ map (fun '(i, sample) => load_record self i sample) items)%list.
Proof.
  revert docs.
  induction items as [|[i sample] rest IH]; intros docs; simpl.
  - now rewrite app_nil_r.
  - rewrite IH, <- app_assoc. reflexivity.
Qed.

Lemma load_pipeline read_text json_loads (self : NestedJSONLoader) :
  load read_text json_loads self =
  match read_text (file_path self) with
  | None => Raise FileAccessError
  | Some json_text =>
      match json_loads json_text with
      | None => Raise ParseError
      | Some json_data =>
          leaves <- leaf_paths json_data "" ;;
          Ok (load_records self (flattened leaves))
      end
  end.
Proof.
  unfold load, _flatten__nested_json.
  destruct (read_text (file_path self)) as [json_text|]; [|reflexivity].
  destruct (json_loads json_text) as [json_data|]; [|reflexivity].
  rewrite flatten_json_walk.
  destruct (leaf_paths json_data "") as [leaves|e]; simpl; [|reflexivity].
  now rewrite load_loop_map.
Qed.

Lemma load_of_flattened read_text json_loads self json_text json_data data :
  read_text (file_path self) = Some json_text ->
  json_loads json_text = Some json_data ->
  flatten_json json_data "" [] = Ok data ->
  load read_text json_loads self = Ok (load_records self data).
Proof.
  intros Hread Hparse Hflat.
  unfold load, _flatten__nested_json.
  rewrite Hread, Hparse, Hflat. simpl.
  now rewrite load_loop_map.
Qed.

(** ** The metadata callback *)

(** C1 (code defect).  [load] never reads [_metadata_func]: with a callback
    and without one it returns the same records, and on the file
    [{"a": 1}] with a callback that replaces the metadata the one record
    still carries the default metadata. *)
Theorem C1_metadata_func_is_never_called :
  (forall read_text json_loads path f,
      load read_text json_loads (mkLoader path (Some f))
      = load read_text json_loads (mkLoader path None))
  /\ load (one_file "/d.json" text_one) (parses_to text_one doc_one)
       (mkLoader "/d.json" (Some replace_metadata))
     = Ok [mkDocument (JStr text_one)
             [("source", JStr "/d.json"); ("seq_num", JInt 1)]].
Proof.
  split; [|reflexivity].
  intros read_text json_loads path f. reflexivity.
Qed.

(** ** The payload of a null entry *)

(** C2 (code defect).  [dict([text]) or ""] is never the empty string,
    since a one-entry dict is truthy: the payload of an entry whose value
    is null is the serialization of [{key: null}], and on the file
    [{"a": null}] the record's payload is the text [{"a": null}]. *)
Theorem C2_null_payload_is_serialized :
  (forall self i k,
      page_content (load_record self i (k, JNull))
      = JStr (json_dumps (JDict [(k, JNull)]))
      /\ page_content (load_record self i (k, JNull)) <> JStr "")
  /\ load (one_file "/d.json" text_null) (parses_to text_null doc_null)
       (mkLoader "/d.json" None)
     = Ok [mkDocument (JStr text_null)
             [("source", JStr "/d.json"); ("seq_num", JInt 1)]].
Proof.
  split; [|reflexivity].
  intros self i k. split; [reflexivity|].
  simpl. discriminate.
Qed.

(** ** Errors *)

(** C3 (code defect).  The concatenation [key_name + identifier + '_'] is
    outside the [try]: when the identifier of an array element resolves
    to a value that is not a [str], the flattener raises [TypeError].
    The input is [[{"identifier": "id", "id": 5}]]. *)
Theorem C3_flattener_raises_on_numeric_identifier :
  resolved_identifier (JDict [("identifier", JStr "id"); ("id", JInt 5)])
  = Some (JInt 5)
  /\ flatten_json doc_numeric_id "" [] = Raise TypeError
  /\ _flatten__nested_json (parses_to text_numeric_id doc_numeric_id)
       text_numeric_id
     = Raise TypeError.
Proof. repeat split. Qed.

(** C9 (code defect, the one of C3).  On the file
    [[{"identifier": "id", "id": 5}]], which is read and parsed without
    error, [load] fails with [TypeError], which is neither of the two
    error kinds. *)
Theorem C9_load_raises_a_third_error :
  let read_text := one_file "/d.json" text_numeric_id in
  let json_loads := parses_to text_numeric_id doc_numeric_id in
  let self := mkLoader "/d.json" None in
  read_text (file_path self) = Some text_numeric_id
  /\ json_loads text_numeric_id = Some doc_numeric_id
  /\ load read_text json_loads self = Raise TypeError
  /\ load read_text json_loads self <> Raise FileAccessError
  /\ load read_text json_loads self <> Raise ParseError.
Proof.
  intros read_text json_loads self.
  assert (Hload : load read_text json_loads self = Raise TypeError)
    by reflexivity.
  repeat split; trivial; rewrite Hload; discriminate.
Qed.

(** Apart from that, [load] is all or nothing: it fails on the read, on
    the parse or in the flattener, or returns one record per entry of the
    whole flattened mapping. *)
Lemma load_outcomes read_text json_loads self :
  (read_text (file_path self) = None
   /\ load read_text json_loads self = Raise FileAccessError)
  \/ (exists json_text,
        read_text (file_path self) = Some json_text
        /\ json_loads json_text = None
        /\ load read_text json_loads self = Raise ParseError)
  \/ (exists json_text json_data,
        read_text (file_path self) = Some json_text
        /\ json_loads json_text = Some json_data
        /\ flatten_json json_data "" [] = Raise TypeError
        /\ load read_text json_loads self = Raise TypeError)
  \/ (exists json_text json_data data,
        read_text (file_path self) = Some json_text
        /\ json_loads json_text = Some json_data
        /\ flatten_json json_data "" [] = Ok data
        /\ load read_text json_loads self = Ok (load_records self data)).
Proof.
  destruct (read_text (file_path self)) as [json_text|] eqn:Hread.
  2:{ left. split; [reflexivity|]. unfold load. now rewrite Hread. }
  right.
  destruct (json_loads json_text) as [json_data|] eqn:Hparse.
  2:{ left. exists json_text. repeat split; trivial.
      unfold load, _flatten__nested_json. now rewrite Hread, Hparse. }
  right.
  destruct (flatten_json json_data "" []) as [data|e] eqn:Hflat.
  - right. exists json_text, json_data, data. repeat split; trivial.
    eapply load_of_flattened; eassumption.
  - left. exists json_text, json_data.
    assert (He : e = TypeError).
    { clear - Hflat. revert Hflat. generalize "" at 1. generalize (@nil (string * json)).
      induction json_data as [| b | n | r | s | l IH | d IH] using json_ind';
        intros out key_name; try discriminate.
      - rewrite flatten_json_list. generalize 0. revert out.
        induction IH as [|a rest Ha _ IHrest]; intros out i; simpl;
          [discriminate|].
        destruct (identifier_segment a i); simpl; try congruence.
        destruct (flatten_json a _ out) eqn:E; simpl; eauto.
        intros [= <-]. eauto.
      - rewrite flatten_json_dict. revert out.
        induction IH as [|[a v] rest Hv _ IHrest]; intros out; simpl;
          [discriminate|].
        destruct (String.eqb a "identifier"); eauto.
        destruct (flatten_json v _ out) eqn:E; simpl; eauto.
        intros [= <-]. simpl in Hv. eauto. }
    subst e. repeat split; trivial.
    unfold load, _flatten__nested_json. now rewrite Hread, Hparse, Hflat.
Qed.

(** ** The docstring example *)

(** C5.  Flattening the docstring example gives exactly the entries
    ["key_value1_text" -> "value1"] and ["key_value2_text" -> "value2"],
    and [load] on a file that holds it gives exactly two records, with
    sequence numbers 1 and 2 in that order. *)
Theorem C5_docstring_example :
  flatten_json doc_docstring "" []
  = Ok [("key_value1_text", JStr "value1"); ("key_value2_text", JStr "value2")]
  /\ forall read_text json_loads self json_text,
      read_text (file_path self) = Some json_text ->
      json_loads json_text = Some doc_docstring ->
      exists first second,
        load read_text json_loads self = Ok [first; second]
        /\ metadata first
           = [("source", JStr (file_path self)); ("seq_num", JInt 1)]
        /\ metadata second
           = [("source", JStr (file_path self)); ("seq_num", JInt 2)]
        /\ page_content first
           = JStr (json_dumps (JDict [("key_value1_text", JStr "value1")]))
        /\ page_content second
           = JStr (json_dumps (JDict [("key_value2_text", JStr "value2")])).
Proof.
  split; [reflexivity|].
  intros read_text json_loads self json_text Hread Hparse.
  eexists _, _. split.
  - erewrite load_of_flattened by (eassumption || reflexivity). reflexivity.
  - repeat split.
Qed.

Lemma C5_docstring_example_witness :
  one_file "/d.json" text_docstring (file_path (mkLoader "/d.json" None))
  = Some text_docstring
  /\ parses_to text_docstring doc_docstring text_docstring = Some doc_docstring
  /\ exists first second,
      load (one_file "/d.json" text_docstring)
        (parses_to text_docstring doc_docstring) (mkLoader "/d.json" None)
      = Ok [first; second]
      /\ metadata first = [("source", JStr "/d.json"); ("seq_num", JInt 1)]
      /\ metadata second = [("source", JStr "/d.json"); ("seq_num", JInt 2)]
      /\ page_content first
         = JStr (json_dumps (JDict [("key_value1_text", JStr "value1")]))
      /\ page_content second
         = JStr (json_dumps (JDict [("key_value2_text", JStr "value2")])).
Proof.
  split; [reflexivity|]. split; [reflexivity|].
  apply (proj2 C5_docstring_example
           (one_file "/d.json" text_docstring)
           (parses_to text_docstring doc_docstring)
           (mkLoader "/d.json" None) text_docstring); reflexivity.
Defined.

(** ** A scalar at the root *)

(** C10.  When the root of the document is a scalar, the flattened
    mapping is the single entry from the empty key to that scalar, and
    [load] gives exactly one record, numbered 1, whose payload is the
    serialization of that one-entry mapping. *)
Theorem C10_scalar_root :
  forall j,
    is_scalar j = true ->
    flatten_json j "" [] = Ok [("", j)]
    /\ forall read_text json_loads self json_text,
        read_text (file_path self) = Some json_text ->
        json_loads json_text = Some j ->
        load read_text json_loads self
        = Ok [mkDocument (JStr (json_dumps (JDict [("", j)])))
                [("source", JStr (file_path self)); ("seq_num", JInt 1)]].
Proof.
  intros j Hscalar.
  assert (Hflat : flatten_json j "" [] = Ok [("", j)])
    by (destruct j; try discriminate; reflexivity).
  split; [exact Hflat|].
  intros read_text json_loads self json_text Hread Hparse.
  erewrite load_of_flattened by eassumption.
  reflexivity.
Qed.

Lemma C10_scalar_root_witness :
  is_scalar JNull = true
  /\ one_file "/d.json" "null" "/d.json" = Some "null"
  /\ parses_to "null" JNull "null" = Some JNull
  /\ flatten_json JNull "" [] = Ok [("", JNull)]
  /\ load (one_file "/d.json" "null") (parses_to "null" JNull)
       (mkLoader "/d.json" None)
     = Ok [mkDocument (JStr ("{" ++ q "" ++ ": null}"))
             [("source", JStr "/d.json"); ("seq_num", JInt 1)]].
Proof.
  split; [reflexivity|]. split; [reflexivity|]. split; [reflexivity|].
  destruct (C10_scalar_root JNull eq_refl) as [Hflat Hload].
  split; [exact Hflat|].
  exact (Hload (one_file "/d.json" "null") (parses_to "null" JNull)
           (mkLoader "/d.json" None) "null" eq_refl eq_refl).
Defined.

(** ** Strings *)

Lemma append_assoc (a b c : string) : (a ++ b) ++ c = a ++ b ++ c.
Proof. induction a as [|x a IH]; simpl; [reflexivity|now rewrite IH]. Qed.

Lemma append_empty_r (a : string) : a ++ "" = a.
Proof. induction a as [|x a IH]; simpl; [reflexivity|now rewrite IH]. Qed.

Lemma append_empty_inv (a b : string) : a ++ b = "" -> a = "" /\ b = "".
Proof. destruct a; simpl; [auto|discriminate]. Qed.

Lemma drop_last_snoc (s : string) (c : ascii) :
  drop_last (s ++ String c "") = s.
Proof.
  induction s as [|x s IH]; simpl; [reflexivity|].
  rewrite IH. destruct s; reflexivity.
Qed.

Lemma last_char_app (a b : string) :
  b <> "" -> last_char (a ++ b) = last_char b.
Proof.
  intros Hb. induction a as [|x a IH]; simpl; [reflexivity|].
  rewrite IH.
  destruct (a ++ b) eqn:E; [|reflexivity].
  apply append_empty_inv in E. now destruct Hb.
Qed.

Lemma drop_last_sep (s : string) : drop_last (s ++ "_") = s.
Proof. apply drop_last_snoc. Qed.

Lemma ends_with_sep_app (a b : string) :
  b <> "" -> ends_with_sep (a ++ b) = ends_with_sep b.
Proof. intros Hb. unfold ends_with_sep. now rewrite last_char_app. Qed.

Lemma clean_segment_spec (s : string) :
  clean_segment s = true <-> s <> "" /\ ends_with_sep s = false.
Proof.
  unfold clean_segment.
  rewrite andb_true_iff, !negb_true_iff, String.eqb_neq. reflexivity.
Qed.

(** The decimal digits of an index make a clean segment. *)

Lemma last_digit_not_sep (d : Decimal.uint) :
  ends_with_sep (NilEmpty.string_of_uint d) = false.
Proof.
  unfold ends_with_sep.
  induction d; simpl; try reflexivity;
    (destruct (NilEmpty.string_of_uint d) eqn:E; [reflexivity|exact IHd]).
Qed.

Lemma revapp_not_nil (d d' : Decimal.uint) :
  d' <> Decimal.Nil -> Decimal.revapp d d' <> Decimal.Nil.
Proof.
  revert d'. induction d; intros d' Hd'; simpl; try assumption;
    apply IHd; discriminate.
Qed.

Lemma little_succ_not_nil (d : Decimal.uint) :
  Decimal.Little.succ d <> Decimal.Nil.
Proof. destruct d; discriminate. Qed.

Lemma to_little_uint_not_nil (n : nat) (acc : Decimal.uint) :
  acc <> Decimal.Nil -> Nat.to_little_uint n acc <> Decimal.Nil.
Proof.
  revert acc. induction n as [|n IH]; intros acc Hacc; simpl; [assumption|].
  apply IH, little_succ_not_nil.
Qed.

Lemma to_uint_not_nil (n : nat) : Nat.to_uint n <> Decimal.Nil.
Proof.
  unfold Nat.to_uint, Decimal.rev.
  pose proof (to_little_uint_not_nil n Decimal.zero) as H.
  destruct (Nat.to_little_uint n Decimal.zero); simpl;
    try (apply revapp_not_nil; discriminate).
  apply H. discriminate.
Qed.

Lemma str_of_nat_clean (i : nat) : clean_segment (str_of_nat i) = true.
Proof.
  apply clean_segment_spec. unfold str_of_nat. split.
  - pose proof (to_uint_not_nil i) as H.
    destruct (Nat.to_uint i); simpl; try discriminate. now destruct H.
  - apply last_digit_not_sep.
Qed.

(** ** Dictionaries *)

Lemma dict_get_set_same k v d : dict_get k (dict_set k v d) = Some v.
Proof.
  induction d as [|[k' v'] d IH]; simpl.
  - now rewrite String.eqb_refl.
  - destruct (String.eqb k k') eqn:E; simpl; rewrite E; [reflexivity|exact IH].
Qed.

Lemma dict_get_set_other k k' v d :
  k <> k' -> dict_get k (dict_set k' v d) = dict_get k d.
Proof.
  intros Hne. induction d as [|[k0 v0] d IH]; simpl.
  - apply String.eqb_neq in Hne. now rewrite Hne.
  - destruct (String.eqb k' k0) eqn:E; simpl.
    + apply String.eqb_eq in E. subst k0.
      apply String.eqb_neq in Hne. now rewrite Hne.
    + now rewrite IH.
Qed.

Lemma keys_dict_set k v d :
  keys (dict_set k v d) = if in_dec string_dec k (keys d) then keys d
                          else (keys d ++ [k])%list.
Proof.
  induction d as [|[k' v'] d IH]; simpl; [reflexivity|].
  destruct (String.eqb k k') eqn:E.
  - apply String.eqb_eq in E. subst k'.
    destruct (string_dec k k) as [Heq|Hne]; [reflexivity|now destruct Hne].
  - apply String.eqb_neq in E. simpl. rewrite IH. unfold keys.
    destruct (string_dec k' k) as [Heq|Hne]; [congruence|].
    destruct (in_dec string_dec k (map fst d)); reflexivity.
Qed.

Lemma in_keys_dict_set k k' v d :
  In k (keys (dict_set k' v d)) <-> k = k' \/ In k (keys d).
Proof.
  rewrite keys_dict_set.
  destruct (in_dec string_dec k' (keys d)) as [Hin|Hout].
  - split; [auto|]. intros [-> | H]; assumption.
  - rewrite in_app_iff. simpl. intuition congruence.
Qed.

Lemma NoDup_keys_dict_set k v d :
  NoDup (keys d) -> NoDup (keys (dict_set k v d)).
Proof.
  intros Hnd. rewrite keys_dict_set.
  destruct (in_dec string_dec k (keys d)) as [Hin|Hout]; [assumption|].
  apply NoDup_app; [assumption|repeat constructor; simpl; tauto|].
  intros x Hx [<- | []]. contradiction.
Qed.

Lemma dict_get_of_entry k v d :
  NoDup (keys d) -> In (k, v) d -> dict_get k d = Some v.
Proof.
  induction d as [|[k' v'] d IH]; simpl; [tauto|].
  intros Hnd [[= -> ->] | Hin].
  - now rewrite String.eqb_refl.
  - inversion Hnd as [|? ? Hout Hnd']; subst.
    destruct (String.eqb k k') eqn:E.
    + apply String.eqb_eq in E. subst k'.
      destruct Hout. apply (in_map fst) in Hin. exact Hin.
    + now apply IH.
Qed.

Lemma dict_set_fresh k v d :
  ~ In k (keys d) -> dict_set k v d = (d ++ [(k, v)])%list.
Proof.
  induction d as [|[k' v'] d IH]; simpl; [reflexivity|].
  intros Hout.
  destruct (String.eqb k k') eqn:E.
  - apply String.eqb_eq in E. subst k'. tauto.
  - rewrite IH; tauto.
Qed.

(** ** Recording the leaves of a walk *)

Lemma NoDup_keys_record_all leaves out :
  NoDup (keys out) -> NoDup (keys (record_all leaves out)).
Proof.
  revert out. induction leaves as [|leaf rest IH]; intros out Hnd; simpl;
    [assumption|].
  apply IH, NoDup_keys_dict_set, Hnd.
Qed.

Lemma in_keys_record_all k leaves out :
  In k (keys (record_all leaves out))
  <-> In k (final_keys leaves) \/ In k (keys out).
Proof.
  revert out. induction leaves as [|leaf rest IH]; intros out; simpl;
    [tauto|].
  rewrite IH. unfold record_leaf. rewrite in_keys_dict_set.
  intuition congruence.
Qed.

Lemma dict_get_record_all_untouched k leaves out :
  ~ In k (final_keys leaves) ->
  dict_get k (record_all leaves out) = dict_get k out.
Proof.
  revert out. induction leaves as [|leaf rest IH]; intros out Hout; simpl;
    [reflexivity|].
  simpl in Hout. rewrite IH by tauto.
  unfold record_leaf. apply dict_get_set_other. intros ->. tauto.
Qed.

Lemma record_all_last_write before p v after out :
  ~ In (drop_last p) (final_keys after) ->
  dict_get (drop_last p) (record_all (before ++ (p, v) :: after)%list out)
  = Some v.
Proof.
  intros Hlast. rewrite record_all_app. simpl.
  rewrite dict_get_record_all_untouched by assumption.
  unfold record_leaf. simpl. apply dict_get_set_same.
Qed.

Lemma record_all_distinct leaves out :
  NoDup (final_keys leaves) ->
  (forall k, In k (final_keys leaves) -> ~ In k (keys out)) ->
  record_all leaves out
  = (out ++ map (fun leaf => (drop_last (fst leaf), snd leaf)) leaves)%list.
Proof.
  revert out. induction leaves as [|[p v] rest IH]; intros out Hnd Hfresh;
    simpl.
  - now rewrite app_nil_r.
  - simpl in Hnd. inversion Hnd as [|? ? Hout Hnd']; subst.
    unfold record_leaf. simpl.
    rewrite dict_set_fresh by (apply Hfresh; simpl; auto).
    rewrite IH; [now rewrite <- app_assoc|assumption|].
    intros k Hk. unfold keys. rewrite map_app, in_app_iff. simpl.
    intros [Hin | [<- | []]].
    + apply (Hfresh k); simpl; auto.
    + contradiction.
Qed.

Lemma flatten_json_leaves j key_name out out' :
  flatten_json j key_name out = Ok out' ->
  exists leaves,
    leaf_paths j key_name = Ok leaves /\ out' = record_all leaves out.
Proof.
  rewrite flatten_json_walk.
  destruct (leaf_paths j key_name) as [leaves|e]; simpl; [|discriminate].
  intros [= <-]. now exists leaves.
Qed.

(** ** Collisions *)

(** C7.  When flattening succeeds, the mapping holds every key once, and
    whenever two leaves of the walk have the same final key and no later
    leaf has it, the mapping binds the key to the value of the later leaf;
    an entry with the earlier leaf's value is there only if the two
    values are equal.  Flattening is a function of the input: equal
    inputs give equal mappings. *)
Theorem C7_last_write_wins :
  (forall j out,
      flatten_json j "" [] = Ok out ->
      exists leaves,
        leaf_paths j "" = Ok leaves
        /\ NoDup (keys out)
        /\ forall before p1 v1 between p2 v2 after,
            leaves
            = (before ++ (p1, v1) :: between ++ (p2, v2) :: after)%list ->
            drop_last p1 = drop_last p2 ->
            ~ In (drop_last p2) (final_keys after) ->
            dict_get (drop_last p2) out = Some v2
            /\ In (drop_last p2, v2) out
            /\ (v1 <> v2 -> ~ In (drop_last p1, v1) out))
  /\ (forall j1 j2,
        j1 = j2 -> flatten_json j1 "" [] = flatten_json j2 "" []).
Proof.
  split; [|intros j1 j2 ->; reflexivity].
  intros j out Hflat.
  destruct (flatten_json_leaves _ _ _ _ Hflat) as (leaves & Hwalk & ->).
  exists leaves. split; [exact Hwalk|].
  assert (Hnd : NoDup (keys (record_all leaves []))).
  { apply NoDup_keys_record_all. constructor. }
  split; [exact Hnd|].
  intros before p1 v1 between p2 v2 after -> Hsame Hlast.
  assert (Hget :
    dict_get (drop_last p2)
      (record_all (before ++ (p1, v1) :: between ++ (p2, v2) :: after)%list [])
    = Some v2).
  { replace (before ++ (p1, v1) :: between ++ (p2, v2) :: after)%list
      with ((before ++ (p1, v1) :: between) ++ (p2, v2) :: after)%list
      by (rewrite <- app_assoc; reflexivity).
    now apply record_all_last_write. }
  split; [exact Hget|]. split.
  - clear - Hget.
    induction (record_all _ _) as [|[k v] d IH]; simpl in *; [discriminate|].
    destruct (String.eqb (drop_last p2) k) eqn:E.
    + apply String.eqb_eq in E. left. congruence.
    + right. auto.
  - intros Hne Hin. rewrite Hsame in Hin.
    apply dict_get_of_entry in Hin; [|exact Hnd]. congruence.
Qed.

Lemma C7_last_write_wins_witness :
  flatten_json doc_collision "" [] = Ok [("a_x_y", JInt 2)]
  /\ leaf_paths doc_collision ""
     = Ok ([] ++ ("a_x_y_", JInt 1) :: [] ++ ("a_x_y_", JInt 2) :: [])%list
  /\ drop_last "a_x_y_" = drop_last "a_x_y_"
  /\ ~ In (drop_last "a_x_y_") (final_keys [])
  /\ dict_get "a_x_y" [("a_x_y", JInt 2)] = Some (JInt 2)
  /\ In ("a_x_y", JInt 2) [("a_x_y", JInt 2)]
  /\ ~ In ("a_x_y", JInt 1) [("a_x_y", JInt 2)].
Proof.
  split; [reflexivity|]. split; [reflexivity|]. split; [reflexivity|].
  split; [simpl; tauto|].
  destruct (proj1 C7_last_write_wins doc_collision [("a_x_y", JInt 2)] eq_refl)
    as (leaves & Hwalk & _ & Hwin).
  injection Hwalk as <-.
  destruct (Hwin [] "a_x_y_" (JInt 1) [] "a_x_y_" (JInt 2) [] eq_refl eq_refl)
    as (Hget & Hin & Hout).
  - simpl. tauto.
  - split; [exact Hget|]. split; [exact Hin|].
    apply Hout. discriminate.
Defined.

(** ** The shape of accumulated key paths *)

Lemma bind_ok {A B : Type} (r : result A) (k : A -> result B) (b : B) :
  bind r k = Ok b -> exists a, r = Ok a /\ k a = Ok b.
Proof. destruct r as [a|e]; simpl; [eauto|discriminate]. Qed.

Ltac bind_inv H :=
  let a := fresh "x" in
  let Ha := fresh "Hx" in
  apply bind_ok in H; destruct H as (a & Ha & H).

Lemma str_add_ok key_name identifier prefix :
  str_add key_name identifier = Ok prefix ->
  exists s, identifier = JStr s /\ prefix = key_name ++ s.
Proof. destruct identifier; simpl; try discriminate. intros [= <-]. eauto. Qed.

Lemma clean_segments_list l :
  clean_segments (JList l)
  = forallb
      (fun a =>
         match resolved_identifier a with
         | Some (JStr s) => clean_segment s
         | _ => true
         end && clean_segments a) l.
Proof. reflexivity. Qed.

Lemma clean_segments_dict d :
  clean_segments (JDict d)
  = forallb
      (fun kv =>
         String.eqb (fst kv) "identifier"
         || (clean_segment (fst kv) && clean_segments (snd kv))) d.
Proof. reflexivity. Qed.

Lemma identifier_segment_clean a i s :
  match resolved_identifier a with
  | Some (JStr s) => clean_segment s
  | _ => true
  end = true ->
  identifier_segment a i = JStr s ->
  clean_segment s = true.
Proof.
  unfold identifier_segment.
  destruct (resolved_identifier a) as [v|].
  - intros Hclean ->. exact Hclean.
  - intros _ [= <-]. apply str_of_nat_clean.
Qed.

Lemma below_segment (j j' : json) (path seg p : string) :
  (clean_segments j' = true ->
   clean_segment seg = true /\ clean_segments j = true) ->
  below j ((path ++ seg) ++ "_") p ->
  p = drop_last p ++ "_"
  /\ (clean_segments j' = true -> ends_with_sep (drop_last p) = false).
Proof.
  intros Hclean [-> | [Hshape Hend]].
  - rewrite drop_last_sep. split; [reflexivity|].
    intros Hj'. destruct (Hclean Hj') as [Hseg _].
    apply clean_segment_spec in Hseg. destruct Hseg as [Hne Hseg].
    now rewrite ends_with_sep_app.
  - split; [exact Hshape|]. intros Hj'. apply Hend, Hclean, Hj'.
Qed.

Lemma leaf_path_shape (j : json) :
  forall path leaves p v,
    leaf_paths j path = Ok leaves -> In (p, v) leaves -> below j path p.
Proof.
  induction j as [| b | n | r | s | l IH | d IH] using json_ind';
    intros path leaves p v Hwalk Hin;
    try (injection Hwalk as <-; destruct Hin as [[= <- <-] | []];
         left; reflexivity).
  - right. rewrite leaf_paths_list in Hwalk. rewrite clean_segments_list.
    revert leaves Hwalk Hin. generalize 0.
    induction IH as [|a rest Ha _ IHrest]; intros i leaves Hwalk Hin;
      simpl in Hwalk.
    + injection Hwalk as <-. destruct Hin.
    + bind_inv Hwalk. bind_inv Hwalk. bind_inv Hwalk.
      injection Hwalk as <-.
      destruct (str_add_ok _ _ _ Hx) as (s & Hseg & ->).
      apply in_app_or in Hin. destruct Hin as [Hin | Hin].
      * apply (below_segment a (JList (a :: rest)) path s).
        -- rewrite clean_segments_list. simpl.
           rewrite !andb_true_iff. intros [[Hs Hca] _].
           split; [|exact Hca].
           eapply identifier_segment_clean; eassumption.
        -- eapply Ha; eassumption.
      * destruct (IHrest _ _ Hx1 Hin) as [Hshape Hend].
        split; [exact Hshape|].
        simpl. rewrite andb_true_iff. intros [_ Hrest]. auto.
  - right. rewrite leaf_paths_dict in Hwalk. rewrite clean_segments_dict.
    revert leaves Hwalk Hin.
    induction IH as [|[a v0] rest Hv _ IHrest]; intros leaves Hwalk Hin;
      simpl in Hwalk.
    + injection Hwalk as <-. destruct Hin.
    + simpl in Hv. simpl forallb.
      destruct (String.eqb a "identifier") eqn:Hid.
      * destruct (IHrest _ Hwalk Hin) as [Hshape Hend].
        split; [exact Hshape|]. simpl. exact Hend.
      * bind_inv Hwalk. bind_inv Hwalk. injection Hwalk as <-.
        apply in_app_or in Hin. destruct Hin as [Hin | Hin].
        -- rewrite <- append_assoc in Hx.
           destruct (below_segment v0 (JDict ((a, v0) :: rest)) path a p)
             as [Hshape Hend].
           ++ rewrite clean_segments_dict. simpl. rewrite Hid. simpl.
              rewrite !andb_true_iff. tauto.
           ++ eapply Hv; eassumption.
           ++ split; [exact Hshape|].
              intros Hc. apply Hend.
              rewrite clean_segments_dict. simpl. rewrite Hid. exact Hc.
        -- destruct (IHrest _ Hx0 Hin) as [Hshape Hend].
           split; [exact Hshape|].
           simpl. rewrite andb_true_iff. intros [_ Hrest]. auto.
Qed.

(** ** Keys of the flattened mapping *)

(** C4, the claim as stated fails: flattening [{"a_": 1}] records the key
    ["a_"], which ends with the separator. *)
Lemma C4_counterexample :
  ~ (forall j out,
        flatten_json j "" [] = Ok out ->
        forall k, In k (keys out) -> ends_with_sep k = false).
Proof.
  intros Hclaim.
  specialize (Hclaim doc_sep_key [("a_", JInt 1)] eq_refl "a_"
                (or_introl eq_refl)).
  discriminate Hclaim.
Qed.

(** C4, amended.  When flattening succeeds, the keys of the mapping are
    exactly the accumulated key paths of the leaves with their last
    character taken off; an accumulated key path is empty (a scalar at the
    root) or ends with the separator, so that character is exactly one
    trailing separator; and when every object key the flattener descends
    through and every resolved [str] identifier is non-empty and does not
    end with an underscore, no key of the mapping ends with the
    separator. *)
Theorem C4_keys_strip_one_separator :
  forall j out,
    flatten_json j "" [] = Ok out ->
    exists leaves,
      leaf_paths j "" = Ok leaves
      /\ (forall k, In k (keys out) <-> In k (final_keys leaves))
      /\ (forall p v, In (p, v) leaves -> p = "" \/ p = drop_last p ++ "_")
      /\ (clean_segments j = true ->
          forall k, In k (keys out) -> ends_with_sep k = false).
Proof.
  intros j out Hflat.
  destruct (flatten_json_leaves _ _ _ _ Hflat) as (leaves & Hwalk & ->).
  exists leaves. split; [exact Hwalk|].
  assert (Hkeys : forall k,
             In k (keys (record_all leaves [])) <-> In k (final_keys leaves)).
  { intros k. rewrite in_keys_record_all. simpl. tauto. }
  split; [exact Hkeys|]. split.
  - intros p v Hin.
    destruct (leaf_path_shape j "" leaves p v Hwalk Hin) as [-> | [Hshape _]];
      auto.
  - intros Hclean k Hk. apply Hkeys in Hk.
    unfold final_keys in Hk. apply in_map_iff in Hk.
    destruct Hk as ([p v] & <- & Hin). simpl.
    destruct (leaf_path_shape j "" leaves p v Hwalk Hin) as [-> | [_ Hend]];
      [reflexivity|auto].
Qed.

Lemma C4_keys_strip_one_separator_witness :
  flatten_json doc_docstring "" []
  = Ok [("key_value1_text", JStr "value1"); ("key_value2_text", JStr "value2")]
  /\ clean_segments doc_docstring = true
  /\ forall k,
      In k (keys [("key_value1_text", JStr "value1");
                  ("key_value2_text", JStr "value2")]) ->
      ends_with_sep k = false.
Proof.
  split; [reflexivity|]. split; [reflexivity|].
  destruct (C4_keys_strip_one_separator doc_docstring
              [("key_value1_text", JStr "value1");
               ("key_value2_text", JStr "value2")] eq_refl)
    as (leaves & _ & _ & _ & Hclean).
  exact (Hclean eq_refl).
Defined.

(** ** Completeness *)

Lemma leaf_values (j : json) :
  forall path leaves,
    leaf_paths j path = Ok leaves -> map snd leaves = emitted_leaves j.
Proof.
  induction j as [| b | n | r | s | l IH | d IH] using json_ind';
    intros path leaves Hwalk; try (injection Hwalk as <-; reflexivity).
  - rewrite leaf_paths_list in Hwalk. simpl.
    revert leaves Hwalk. generalize 0.
    induction IH as [|a rest Ha _ IHrest]; intros i leaves Hwalk;
      simpl in Hwalk.
    + injection Hwalk as <-. reflexivity.
    + bind_inv Hwalk. bind_inv Hwalk. bind_inv Hwalk.
      injection Hwalk as <-.
      rewrite map_app. simpl. f_equal; eauto.
  - rewrite leaf_paths_dict in Hwalk. simpl.
    revert leaves Hwalk.
    induction IH as [|[a v] rest Hv _ IHrest]; intros leaves Hwalk;
      simpl in Hwalk.
    + injection Hwalk as <-. reflexivity.
    + simpl. destruct (String.eqb a "identifier"); [eauto|].
      bind_inv Hwalk. bind_inv Hwalk. injection Hwalk as <-.
      rewrite map_app. simpl in Hv. f_equal; eauto.
Qed.

Lemma load_records_values self data :
  Forall2 (fun doc v => record_of_value v doc)
    (load_records self data) (values data).
Proof.
  unfold load_records. generalize 1.
  induction data as [|[k v] rest IH]; intros i; simpl; constructor.
  - exists k. reflexivity.
  - apply IH.
Qed.

Lemma dumps_entry (k : string) (v : json) :
  json_dumps (JDict [(k, v)])
  = ("{" ++ encode_basestring_ascii k) ++ ": " ++ json_dumps v ++ "}".
Proof.
  change (json_dumps (JDict [(k, v)]))
    with ("{" ++ (encode_basestring_ascii k ++ ": " ++ json_dumps v) ++ "}").
  now rewrite !append_assoc.
Qed.

(** C8, the claim as stated fails.  In
    [[{"identifier": "t", "t": "v", "u": 1},
      {"identifier": "t", "t": "v", "u": 2}]] every array element has an
    identifier that resolves, [1] is a leaf scalar of the input, and no
    record of [load] is made from the value [1]: both elements give the
    key ["v_u"], and the second one's [2] takes its place.  (The leaf
    ["t"] below ["identifier"] is not in a record either.) *)
Lemma C8_counterexample :
  ~ (forall read_text json_loads self json_text j docs,
        read_text (file_path self) = Some json_text ->
        json_loads json_text = Some j ->
        identifiers_resolvable j = true ->
        load read_text json_loads self = Ok docs ->
        forall v,
          In v (scalar_leaves j) ->
          exists doc, In doc docs /\ record_of_value v doc).
Proof.
  intros Hclaim.
  destruct (Hclaim (one_file "/d.json" text_twins)
              (parses_to text_twins doc_twins) (mkLoader "/d.json" None)
              text_twins doc_twins _ eq_refl eq_refl eq_refl eq_refl
              (JInt 1)) as (doc & Hin & k & Hpayload).
  { simpl. tauto. }
  rewrite dumps_entry in Hpayload.
  generalize dependent ("{" ++ encode_basestring_ascii k).
  intros a Hpayload.
  change (": " ++ json_dumps (JInt 1) ++ "}") with ": 1}" in Hpayload.
  destruct Hin as [<- | [<- | []]]; simpl in Hpayload;
    injection Hpayload as Hpayload; symmetry in Hpayload;
    repeat (destruct a as [|? a]; simpl in Hpayload;
            [discriminate Hpayload | injection Hpayload as _ Hpayload]);
    destruct a; discriminate Hpayload.
Qed.

(** * Further properties of the loader *)

(** ** Objects and arrays flattened piecewise *)

Lemma flatten_items_app key_name d1 d2 out :
  flatten_items key_name (d1 ++ d2)%list out
  = (out1 <- flatten_items key_name d1 out ;; flatten_items key_name d2 out1).
Proof.
  revert out. induction d1 as [|[a v] d1 IH]; intros out; simpl; [reflexivity|].
  destruct (String.eqb a "identifier"); [apply IH|].
  destruct (flatten_json v _ out) as [out'|e]; simpl; [apply IH|reflexivity].
Qed.

Lemma flatten_elems_app key_name l1 l2 i out :
  flatten_elems key_name (l1 ++ l2)%list i out
  = (out1 <- flatten_elems key_name l1 i out ;;
     flatten_elems key_name l2 (i + length l1) out1).
Proof.
  revert i out. induction l1 as [|a l1 IH]; intros i out; simpl.
  - now rewrite Nat.add_0_r.
  - destruct (str_add key_name (identifier_segment a i)) as [prefix|e]; simpl;
      [|reflexivity].
    destruct (flatten_json a _ out) as [out'|e]; simpl; [|reflexivity].
    rewrite IH. now rewrite Nat.add_succ_r.
Qed.

(** ** The index fallback *)

(** C6.  An array element that is not a mapping, or a mapping without an
    ["identifier"] key, or a mapping whose ["identifier"] names no key of
    the element, gets its zero-based position in the array, as a string,
    as its key segment, whatever the elements before it are: the array
    [before + [a] + after] is flattened by flattening [before], then [a]
    under [key_name + str(len(before)) + '_'], then the rest with the
    counter at [len(before) + 1].  The same holds at every step of the
    loop for the counter [i].  Flattening [{"list": [10, 20]}] gives
    exactly ["list_0" -> 10] and ["list_1" -> 20]. *)
Theorem C6_index_fallback :
  (forall before a after key_name out,
      ((forall d, a <> JDict d)
       \/ (exists d, a = JDict d /\ dict_get "identifier" d = None)
       \/ (exists d named,
             a = JDict d
             /\ dict_get "identifier" d = Some named
             /\ forall field, named = JStr field -> dict_get field d = None)) ->
      identifier_segment a (length before) = JStr (str_of_nat (length before))
      /\ flatten_json (JList (before ++ a :: after)%list) key_name out
         = (out1 <- flatten_json (JList before) key_name out ;;
            out2 <- flatten_json a
                      (key_name ++ str_of_nat (length before) ++ "_") out1 ;;
            flatten_elems key_name after (S (length before)) out2))
  /\ (forall a i key_name rest out,
        ((forall d, a <> JDict d)
         \/ (exists d, a = JDict d /\ dict_get "identifier" d = None)
         \/ (exists d named,
               a = JDict d
               /\ dict_get "identifier" d = Some named
               /\ forall field,
                   named = JStr field -> dict_get field d = None)) ->
        identifier_segment a i = JStr (str_of_nat i)
        /\ flatten_elems key_name (a :: rest) i out
           = (out' <- flatten_json a (key_name ++ str_of_nat i ++ "_") out ;;
              flatten_elems key_name rest (S i) out'))
  /\ flatten_json doc_list "" []
     = Ok [("list_0", JInt 10); ("list_1", JInt 20)].
Proof.
  assert (Hfallback : forall a i,
    ((forall d, a <> JDict d)
     \/ (exists d, a = JDict d /\ dict_get "identifier" d = None)
     \/ (exists d named,
           a = JDict d
           /\ dict_get "identifier" d = Some named
           /\ forall field, named = JStr field -> dict_get field d = None)) ->
    identifier_segment a i = JStr (str_of_nat i)).
  { intros a i Hcase. unfold identifier_segment, resolved_identifier.
    destruct Hcase
      as [Hnot | [(d & -> & Hnone) | (d & named & -> & Hid & Habsent)]].
    - destruct a; try reflexivity. now destruct (Hnot d).
    - now rewrite Hnone.
    - rewrite Hid. destruct named; try reflexivity.
      now rewrite (Habsent s eq_refl). }
  assert (Hstep : forall a i key_name rest out,
    identifier_segment a i = JStr (str_of_nat i) ->
    flatten_elems key_name (a :: rest) i out
    = (out' <- flatten_json a (key_name ++ str_of_nat i ++ "_") out ;;
       flatten_elems key_name rest (S i) out')).
  { intros a i key_name rest out Hseg. simpl. rewrite Hseg. simpl.
    now rewrite <- (append_assoc key_name (str_of_nat i) "_"). }
  split; [|split; [|reflexivity]].
  - intros before a after key_name out Hcase.
    pose proof (Hfallback a (length before) Hcase) as Hseg.
    split; [exact Hseg|].
    rewrite !flatten_json_list, flatten_elems_app.
    destruct (flatten_elems key_name before 0 out) as [out1|e];
      [|reflexivity].
    unfold bind at 1 3. simpl plus.
    now rewrite (Hstep a (length before) key_name after out1 Hseg).
  - intros a i key_name rest out Hcase.
    pose proof (Hfallback a i Hcase) as Hseg.
    split; [exact Hseg|apply Hstep, Hseg].
Qed.

Lemma C6_index_fallback_witness :
  (forall d, JInt 7 <> JDict d)
  /\ identifier_segment (JInt 7)
       (length [JDict [("identifier", JStr "t"); ("t", JStr "v")]])
     = JStr "1"
  /\ flatten_json
       (JList ([JDict [("identifier", JStr "t"); ("t", JStr "v")]]
               ++ JInt 7 :: [JDict [("x", JInt 8)]])%list) "" []
     = (out1 <- flatten_json
                  (JList [JDict [("identifier", JStr "t"); ("t", JStr "v")]])
                  "" [] ;;
        out2 <- flatten_json (JInt 7) "1_" out1 ;;
        flatten_elems "" [JDict [("x", JInt 8)]] 2 out2)
  /\ flatten_json doc_mixed "" []
     = Ok [("v_t", JStr "v"); ("1", JInt 7); ("2_x", JInt 8)].
Proof.
  assert (Hcase : forall d, JInt 7 <> JDict d) by (intros d; discriminate).
  split; [exact Hcase|].
  destruct (proj1 C6_index_fallback
              [JDict [("identifier", JStr "t"); ("t", JStr "v")]] (JInt 7)
              [JDict [("x", JInt 8)]] "" [] (or_introl Hcase))
    as [Hseg Hflat].
  split; [exact Hseg|]. split; [exact Hflat|].
  change doc_mixed
    with (JList ([JDict [("identifier", JStr "t"); ("t", JStr "v")]]
                 ++ JInt 7 :: [JDict [("x", JInt 8)]])%list).
  rewrite Hflat. reflexivity.
Defined.

(** X (piecewise).  An object made of two runs of pairs is flattened by
    flattening the first run and then the second into the same mapping;
    an array likewise, the index counter of the second part starting at
    the length of the first.  An error in the first part is the error of
    the whole. *)
Theorem flatten_json_piecewise :
  (forall d1 d2 key_name out,
      flatten_json (JDict (d1 ++ d2)%list) key_name out
      = (out1 <- flatten_json (JDict d1) key_name out ;;
         flatten_json (JDict d2) key_name out1))
  /\ (forall l1 l2 key_name out,
        flatten_json (JList (l1 ++ l2)%list) key_name out
        = (out1 <- flatten_json (JList l1) key_name out ;;
           flatten_elems key_name l2 (length l1) out1)).
Proof.
  split.
  - intros d1 d2 key_name out.
    rewrite !flatten_json_dict, flatten_items_app.
    destruct (flatten_items key_name d1 out); unfold bind;
      [now rewrite flatten_json_dict|reflexivity].
  - intros l1 l2 key_name out.
    now rewrite !flatten_json_list, flatten_elems_app.
Qed.

(** ** The ["identifier"] pair of an object *)

(** X (identifier pair).  Flattening an object never looks at the value
    of its ["identifier"] pair: the object flattens as it does with the
    pair removed. *)
Theorem flatten_json_skips_identifier_pair :
  forall d key_name out,
    flatten_json (JDict d) key_name out
    = flatten_json
        (JDict (filter (fun kv => negb (String.eqb (fst kv) "identifier")) d))
        key_name out.
Proof.
  intros d key_name out. rewrite !flatten_json_dict. revert out.
  induction d as [|[a v] d IH]; intros out; simpl; [reflexivity|].
  destruct (String.eqb a "identifier") eqn:Hid; simpl; [apply IH|].
  rewrite Hid.
  destruct (flatten_json v _ out) as [out'|e]; simpl; [apply IH|reflexivity].
Qed.

(** ** When the flattener raises *)

Lemma str_identifiers_list l :
  str_identifiers (JList l)
  = forallb
      (fun a =>
         match resolved_identifier a with
         | Some (JStr _) | None => true
         | Some _ => false
         end && str_identifiers a) l.
Proof. reflexivity. Qed.

Lemma str_identifiers_dict d :
  str_identifiers (JDict d)
  = forallb
      (fun kv => String.eqb (fst kv) "identifier" || str_identifiers (snd kv))
      d.
Proof. reflexivity. Qed.

Lemma str_add_segment path a i :
  match str_add path (identifier_segment a i) with
  | Ok _ =>
      match resolved_identifier a with
      | Some (JStr _) | None => true
      | Some _ => false
      end = true
  | Raise e =>
      e = TypeError
      /\ match resolved_identifier a with
         | Some (JStr _) | None => true
         | Some _ => false
         end = false
  end.
Proof.
  unfold identifier_segment.
  destruct (resolved_identifier a) as [[]|]; simpl; auto.
Qed.

(** The walk fails exactly on a tree with an identifier that resolves to
    something other than a [str], and then with [TypeError]. *)
Lemma leaf_paths_outcome (j : json) :
  forall path,
    match leaf_paths j path with
    | Ok _ => str_identifiers j = true
    | Raise e => e = TypeError /\ str_identifiers j = false
    end.
Proof.
  induction j as [| b | n | r | s | l IH | d IH] using json_ind';
    intros path; try reflexivity.
  - rewrite leaf_paths_list, str_identifiers_list. generalize 0.
    induction IH as [|a rest Ha _ IHrest]; intros i; simpl; [reflexivity|].
    pose proof (str_add_segment path a i) as Hseg.
    destruct (str_add path (identifier_segment a i)) as [prefix|e]; simpl.
    + rewrite Hseg. simpl.
      specialize (Ha (prefix ++ "_")).
      destruct (leaf_paths a (prefix ++ "_")) as [here|e]; simpl.
      * rewrite Ha. simpl.
        specialize (IHrest (S i)).
        destruct (elem_paths path rest (S i)); simpl; exact IHrest.
      * destruct Ha as [-> ->]. auto.
    + destruct Hseg as [-> ->]. auto.
  - rewrite leaf_paths_dict, str_identifiers_dict.
    induction IH as [|[a v] rest Hv _ IHrest]; simpl; [reflexivity|].
    destruct (String.eqb a "identifier"); simpl; [exact IHrest|].
    simpl in Hv. specialize (Hv (path ++ a ++ "_")).
    destruct (leaf_paths v (path ++ a ++ "_")) as [here|e]; simpl.
    + rewrite Hv. simpl.
      destruct (pair_paths path rest); simpl; exact IHrest.
    + destruct Hv as [-> ->]. auto.
Qed.

Lemma flatten_json_outcome j key_name out :
  match flatten_json j key_name out with
  | Ok _ => str_identifiers j = true
  | Raise e => e = TypeError /\ str_identifiers j = false
  end.
Proof.
  rewrite flatten_json_walk.
  pose proof (leaf_paths_outcome j key_name) as H.
  destruct (leaf_paths j key_name); simpl; exact H.
Qed.

(** X (failure condition).  [flatten_json] returns exactly when, wherever
    it goes, no identifier of an array element resolves to a value that
    is not a [str]; otherwise it raises [TypeError], whatever [key_name]
    and [out] are, and it raises nothing else. *)
Theorem flatten_json_raises_exactly :
  forall j key_name out,
    ((exists out', flatten_json j key_name out = Ok out')
     <-> str_identifiers j = true)
    /\ (flatten_json j key_name out = Raise TypeError
        <-> str_identifiers j = false)
    /\ (forall e, flatten_json j key_name out = Raise e -> e = TypeError).
Proof.
  intros j key_name out.
  pose proof (flatten_json_outcome j key_name out) as H.
  destruct (flatten_json j key_name out) as [out'|e].
  - repeat split; try congruence; eauto.
  - destruct H as [-> H].
    repeat split; try congruence; intros [out' Hok]; discriminate.
Qed.

(** ** How [load] fails *)


Lemma flatten_json_raises_exactly_witness :
  str_identifiers doc_numeric_id = false
  /\ flatten_json doc_numeric_id "k_" [("seen", JNull)] = Raise TypeError
  /\ str_identifiers doc_docstring = true
  /\ exists out', flatten_json doc_docstring "k_" [("seen", JNull)] = Ok out'.
Proof.
  split; [reflexivity|].
  split;
    [exact (proj2 (proj1 (proj2 (flatten_json_raises_exactly
                                   doc_numeric_id "k_" [("seen", JNull)])))
              eq_refl)|].
  split; [reflexivity|].
  exact (proj2 (proj1 (flatten_json_raises_exactly
                         doc_docstring "k_" [("seen", JNull)])) eq_refl).
Defined.


(** ** The records of [load] *)

Lemma nth_error_enumerate {A : Type} (l : list A) (start n : nat) (x : A) :
  nth_error l n = Some x ->
  nth_error (enumerate l start) n = Some (start + n, x).
Proof.
  revert start n. induction l as [|y l IH]; intros start [|n]; simpl;
    try discriminate.
  - intros [= ->]. now rewrite Nat.add_0_r.
  - intros H. rewrite (IH (S start) n H). now rewrite Nat.add_succ_r.
Qed.

Lemma length_enumerate {A : Type} (l : list A) (start : nat) :
  length (enumerate l start) = length l.
Proof.
  revert start. induction l as [|y l IH]; intros start; simpl;
    [reflexivity|now rewrite IH].
Qed.

Lemma length_load_records self data :
  length (load_records self data) = length data.
Proof. unfold load_records. now rewrite length_map, length_enumerate. Qed.

(** ** Completeness, with distinct keys *)

(** C8, amended.  When flattening succeeds and the leaves of the walk
    have pairwise distinct final keys, [load] returns one record for each
    leaf scalar that is not below an ["identifier"] pair, in the order of
    the walk: the record at position n (from 0) is made from the leaf at
    position n, under the leaf's final key, its source is the path of the
    file and its sequence number is n + 1. *)
Theorem C8_distinct_keys_complete :
  forall read_text json_loads self json_text j leaves,
    read_text (file_path self) = Some json_text ->
    json_loads json_text = Some j ->
    leaf_paths j "" = Ok leaves ->
    NoDup (final_keys leaves) ->
    map snd leaves = emitted_leaves j
    /\ exists docs,
        load read_text json_loads self = Ok docs
        /\ docs
           = load_records self
               (map (fun leaf => (drop_last (fst leaf), snd leaf)) leaves)
        /\ Forall2 (fun doc v => record_of_value v doc)
             docs (emitted_leaves j)
        /\ length docs = length (emitted_leaves j)
        /\ (forall n p v,
              nth_error leaves n = Some (p, v) ->
              nth_error docs n
              = Some (mkDocument
                        (JStr (json_dumps (JDict [(drop_last p, v)])))
                        [("source", JStr (file_path self));
                         ("seq_num", JInt (Z.of_nat (S n)))]))
        /\ (forall n v,
              nth_error (emitted_leaves j) n = Some v ->
              exists k,
                nth_error docs n
                = Some (mkDocument (JStr (json_dumps (JDict [(k, v)])))
                          [("source", JStr (file_path self));
                           ("seq_num", JInt (Z.of_nat (S n)))])).
Proof.
  intros read_text json_loads self json_text j leaves Hread Hparse Hwalk Hnd.
  pose proof (leaf_values j "" leaves Hwalk) as Hvalues.
  split; [exact Hvalues|].
  set (data := map (fun leaf => (drop_last (fst leaf), snd leaf)) leaves).
  assert (Hat : forall n p v,
    nth_error leaves n = Some (p, v) ->
    nth_error (load_records self data) n
    = Some (mkDocument (JStr (json_dumps (JDict [(drop_last p, v)])))
              [("source", JStr (file_path self));
               ("seq_num", JInt (Z.of_nat (S n)))])).
  { intros n p v Hn.
    assert (Hd : nth_error data n = Some (drop_last p, v)).
    { unfold data.
      exact (map_nth_error
               (fun leaf => (drop_last (fst leaf), snd leaf)) n leaves Hn). }
    unfold load_records.
    rewrite (map_nth_error _ _ _ (nth_error_enumerate data 1 n _ Hd)).
    reflexivity. }
  exists (load_records self data).
  split; [|split; [reflexivity|split; [|split; [|split]]]].
  - rewrite load_pipeline, Hread, Hparse, Hwalk. simpl.
    unfold flattened. rewrite record_all_distinct; [reflexivity|exact Hnd|].
    intros k _ [].
  - rewrite <- Hvalues.
    replace (map snd leaves) with (values data).
    + apply load_records_values.
    + unfold values, data. rewrite map_map. reflexivity.
  - rewrite length_load_records, <- Hvalues. unfold data.
    now rewrite !length_map.
  - exact Hat.
  - intros n v Hn. rewrite <- Hvalues in Hn.
    rewrite nth_error_map in Hn.
    destruct (nth_error leaves n) as [[p v']|] eqn:Hleaf; [|discriminate].
    injection Hn as <-. exists (drop_last p). now apply Hat.
Qed.

Lemma C8_distinct_keys_complete_witness :
  one_file "/d.json" text_docstring "/d.json" = Some text_docstring
  /\ parses_to text_docstring doc_docstring text_docstring = Some doc_docstring
  /\ leaf_paths doc_docstring ""
     = Ok [("key_value1_text_", JStr "value1");
           ("key_value2_text_", JStr "value2")]
  /\ NoDup (final_keys [("key_value1_text_", JStr "value1");
                        ("key_value2_text_", JStr "value2")])
  /\ emitted_leaves doc_docstring = [JStr "value1"; JStr "value2"]
  /\ exists docs,
      load (one_file "/d.json" text_docstring)
        (parses_to text_docstring doc_docstring) (mkLoader "/d.json" None)
      = Ok docs
      /\ Forall2 (fun doc v => record_of_value v doc)
           docs [JStr "value1"; JStr "value2"]
      /\ length docs = 2
      /\ nth_error docs 1
         = Some (mkDocument
                   (JStr ("{" ++ q "key_value2_text" ++ ": " ++ q "value2"
                          ++ "}"))
                   [("source", JStr "/d.json"); ("seq_num", JInt 2)]).
Proof.
  assert (Hnd : NoDup (final_keys [("key_value1_text_", JStr "value1");
                                   ("key_value2_text_", JStr "value2")])).
  { repeat constructor; simpl; intuition discriminate. }
  split; [reflexivity|]. split; [reflexivity|]. split; [reflexivity|].
  split; [exact Hnd|]. split; [reflexivity|].
  destruct (C8_distinct_keys_complete
              (one_file "/d.json" text_docstring)
              (parses_to text_docstring doc_docstring)
              (mkLoader "/d.json" None) text_docstring doc_docstring
              [("key_value1_text_", JStr "value1");
               ("key_value2_text_", JStr "value2")]
              eq_refl eq_refl eq_refl Hnd)
    as (_ & docs & Hload & _ & Hall & Hlen & Hat & _).
  exists docs. split; [exact Hload|]. split; [exact Hall|].
  split; [exact Hlen|].
  exact (Hat 1 "key_value2_text_" (JStr "value2") eq_refl).
Defined.

(** X (records).  For a loader made by [__init__], when the file at the
    resolved path is read and parsed and the tree flattens to [data],
    [load] returns as many records as [data] has entries, and the record
    at position n (from 0) is made from the entry at position n: its
    payload is the [str] that [json.dumps] gives for the one-entry dict,
    never the empty string, and its metadata is the resolved path as
    source with sequence number n + 1. *)
Theorem load_record_at :
  forall resolve read_text json_loads path metadata_func json_text j data,
    read_text (resolve path) = Some json_text ->
    json_loads json_text = Some j ->
    flatten_json j "" [] = Ok data ->
    exists docs,
      load read_text json_loads (__init__ resolve path metadata_func) = Ok docs
      /\ length docs = length data
      /\ forall n k v,
          nth_error data n = Some (k, v) ->
          nth_error docs n
          = Some (mkDocument (JStr (json_dumps (JDict [(k, v)])))
                    [("source", JStr (resolve path));
                     ("seq_num", JInt (Z.of_nat (S n)))])
          /\ json_dumps (JDict [(k, v)]) <> "".
Proof.
  intros resolve read_text json_loads path metadata_func json_text j data
    Hread Hparse Hflat.
  exists (load_records (__init__ resolve path metadata_func) data).
  split; [|split].
  - eapply load_of_flattened; eassumption.
  - apply length_load_records.
  - intros n k v Hn. split; [|simpl; discriminate].
    unfold load_records.
    rewrite (map_nth_error _ _ _ (nth_error_enumerate data 1 n (k, v) Hn)).
    reflexivity.
Qed.

Lemma load_record_at_witness :
  one_file "/abs/d.json" text_twins ((fun p => "/abs/" ++ p) "d.json")
  = Some text_twins
  /\ parses_to text_twins doc_twins text_twins = Some doc_twins
  /\ flatten_json doc_twins "" [] = Ok [("v_t", JStr "v"); ("v_u", JInt 2)]
  /\ exists docs,
      load (one_file "/abs/d.json" text_twins) (parses_to text_twins doc_twins)
        (__init__ (fun p => "/abs/" ++ p) "d.json" (Some replace_metadata))
      = Ok docs
      /\ length docs = 2
      /\ nth_error docs 1
         = Some (mkDocument (JStr ("{" ++ q "v_u" ++ ": 2}"))
                   [("source", JStr "/abs/d.json"); ("seq_num", JInt 2)]).
Proof.
  split; [reflexivity|]. split; [reflexivity|]. split; [reflexivity|].
  destruct (load_record_at (fun p => "/abs/" ++ p)
              (one_file "/abs/d.json" text_twins)
              (parses_to text_twins doc_twins) "d.json"
              (Some replace_metadata) text_twins doc_twins
              [("v_t", JStr "v"); ("v_u", JInt 2)] eq_refl eq_refl eq_refl)
    as (docs & Hload & Hlen & Hnth).
  exists docs. split; [exact Hload|]. split; [exact Hlen|].
  exact (proj1 (Hnth 1 "v_u" (JInt 2) eq_refl)).
Defined.

(** ** What the mapping holds *)

Lemma in_dict_set k v d kv :
  In kv (dict_set k v d) -> kv = (k, v) \/ In kv d.
Proof.
  induction d as [|[k' v'] d IH]; simpl.
  - intros [<- | []]. auto.
  - destruct (String.eqb k k') eqn:E; simpl.
    + apply String.eqb_eq in E. subst k'. intros [<- | H]; auto.
    + intros [<- | H]; [auto|]. destruct (IH H); auto.
Qed.

Lemma in_record_all leaves out kv :
  In kv (record_all leaves out) ->
  In kv out
  \/ exists p, In (p, snd kv) leaves /\ fst kv = drop_last p.
Proof.
  revert out. induction leaves as [|[p v] rest IH]; intros out; simpl;
    [auto|].
  intros H. destruct (IH _ H) as [Hin | (p' & Hin & Hk)].
  - unfold record_leaf in Hin. simpl in Hin.
    destruct (in_dict_set _ _ _ _ Hin) as [-> | Hout]; [|auto].
    right. exists p. simpl. auto.
  - right. exists p'. auto.
Qed.



Lemma emitted_leaves_scalar (j : json) :
  Forall (fun v => is_scalar v = true) (emitted_leaves j).
Proof.
  induction j as [| b | n | r | s | l IH | d IH] using json_ind';
    try (repeat constructor).
  - simpl. induction IH as [|a rest Ha _ IHrest]; simpl; [constructor|].
    apply Forall_app. auto.
  - simpl. induction IH as [|[a v] rest Hv _ IHrest]; simpl; [constructor|].
    apply Forall_app. split; [|exact IHrest].
    destruct (String.eqb a "identifier"); [constructor|exact Hv].
Qed.

Lemma flatten_json_values j key_name out k v :
  flatten_json j key_name [] = Ok out ->
  In (k, v) out -> is_scalar v = true /\ In v (emitted_leaves j).
Proof.
  intros Hflat Hin.
  destruct (flatten_json_leaves _ _ _ _ Hflat) as (leaves & Hwalk & ->).
  assert (Hv : In v (emitted_leaves j)).
  { destruct (in_record_all _ _ _ Hin) as [[] | (p & Hp & _)].
    rewrite <- (leaf_values j key_name leaves Hwalk).
    apply (in_map snd) in Hp. exact Hp. }
  split; [|exact Hv].
  pose proof (emitted_leaves_scalar j) as Hall.
  rewrite Forall_forall in Hall. auto.
Qed.

(** X (scalars only).  Every value of the mapping that [flatten_json]
    builds from an empty [out] is a scalar, never a list or a dict, and
    it is a scalar of the input that is not below an ["identifier"]
    pair. *)
Theorem flattened_values_are_input_scalars :
  forall j key_name out,
    flatten_json j key_name [] = Ok out ->
    forall k v,
      In (k, v) out -> is_scalar v = true /\ In v (emitted_leaves j).
Proof.
  intros j key_name out Hflat k v Hin.
  eapply flatten_json_values; eassumption.
Qed.

Lemma flattened_values_are_input_scalars_witness :
  flatten_json doc_twins "" [] = Ok [("v_t", JStr "v"); ("v_u", JInt 2)]
  /\ In ("v_u", JInt 2) [("v_t", JStr "v"); ("v_u", JInt 2)]
  /\ is_scalar (JInt 2) = true
  /\ In (JInt 2) (emitted_leaves doc_twins).
Proof.
  split; [reflexivity|].
  assert (Hin : In ("v_u", JInt 2) [("v_t", JStr "v"); ("v_u", JInt 2)])
    by (simpl; auto).
  split; [exact Hin|].
  exact (flattened_values_are_input_scalars doc_twins ""
           [("v_t", JStr "v"); ("v_u", JInt 2)] eq_refl "v_u" (JInt 2) Hin).
Defined.



(** ** Where a leaf of the walk comes from *)

Lemma pair_paths_in path d leaves leaf :
  pair_paths path d = Ok leaves ->
  In leaf leaves ->
  exists a v here,
    In (a, v) d
    /\ String.eqb a "identifier" = false
    /\ leaf_paths v (path ++ a ++ "_") = Ok here
    /\ In leaf here.
Proof.
  revert leaves. induction d as [|[a v] rest IH]; intros leaves Hwalk Hin;
    simpl in Hwalk.
  - injection Hwalk as <-. destruct Hin.
  - destruct (String.eqb a "identifier") eqn:Hid.
    + destruct (IH _ Hwalk Hin) as (a' & v' & here & Hd & Hrest).
      exists a', v', here. simpl. auto.
    + bind_inv Hwalk. bind_inv Hwalk. injection Hwalk as <-.
      apply in_app_or in Hin. destruct Hin as [Hin | Hin].
      * exists a, v, x. simpl. auto.
      * destruct (IH _ Hx0 Hin) as (a' & v' & here & Hd & Hrest).
        exists a', v', here. simpl. auto.
Qed.

Lemma elem_paths_in path l i leaves leaf :
  elem_paths path l i = Ok leaves ->
  In leaf leaves ->
  exists a n s here,
    nth_error l n = Some a
    /\ identifier_segment a (i + n) = JStr s
    /\ leaf_paths a ((path ++ s) ++ "_") = Ok here
    /\ In leaf here.
Proof.
  revert i leaves. induction l as [|a rest IH]; intros i leaves Hwalk Hin;
    simpl in Hwalk.
  - injection Hwalk as <-. destruct Hin.
  - bind_inv Hwalk. bind_inv Hwalk. bind_inv Hwalk. injection Hwalk as <-.
    destruct (str_add_ok _ _ _ Hx) as (s & Hseg & ->).
    apply in_app_or in Hin. destruct Hin as [Hin | Hin].
    + exists a, 0, s, x0. rewrite Nat.add_0_r. simpl. auto.
    + destruct (IH _ _ Hx1 Hin) as (a' & n & s' & here & Hn & Hs & Hrest).
      exists a', (S n), s', here. rewrite Nat.add_succ_r. simpl. auto.
Qed.

(** A leaf of a scalar is at the path itself; a leaf of an object or an
    array is below it, by at least one segment and its separator. *)
Lemma leaf_path_extends (j : json) :
  forall path leaves p v,
    leaf_paths j path = Ok leaves ->
    In (p, v) leaves ->
    (is_scalar j = true /\ p = path)
    \/ (is_scalar j = false /\ exists body, p = path ++ body ++ "_").
Proof.
  assert (Hstep : forall (child : json) path seg p,
    ((is_scalar child = true /\ p = (path ++ seg) ++ "_")
     \/ (is_scalar child = false
         /\ exists body, p = ((path ++ seg) ++ "_") ++ body ++ "_")) ->
    exists body, p = path ++ body ++ "_").
  { intros child path seg p [[_ ->] | [_ (body & ->)]].
    - exists seg. now rewrite append_assoc.
    - exists (seg ++ "_" ++ body). now rewrite !append_assoc. }
  induction j as [| b | n | r | s | l IH | d IH] using json_ind';
    intros path leaves p v Hwalk Hin;
    try (injection Hwalk as <-; destruct Hin as [[= <- <-] | []];
         left; split; reflexivity).
  - right. split; [reflexivity|].
    rewrite leaf_paths_list in Hwalk.
    destruct (elem_paths_in _ _ _ _ _ Hwalk Hin)
      as (a & n & s & here & Hn & _ & Hhere & Hleaf).
    rewrite Forall_forall in IH.
    apply (Hstep a path s).
    apply (IH a (nth_error_In _ _ Hn) _ _ _ _ Hhere Hleaf).
  - right. split; [reflexivity|].
    rewrite leaf_paths_dict in Hwalk.
    destruct (pair_paths_in _ _ _ _ Hwalk Hin)
      as (a & v0 & here & Hd & _ & Hhere & Hleaf).
    rewrite Forall_forall in IH.
    rewrite <- append_assoc in Hhere.
    apply (Hstep v0 path a).
    apply (IH (a, v0) Hd _ _ _ _ Hhere Hleaf).
Qed.

(** X (keys extend the prefix).  Every key that
    [flatten_json(json_data, key_name)] writes is [key_name[:-1]] when
    [json_data] is a scalar, and begins with [key_name] when it is an
    object or an array. *)
Theorem flatten_json_keys_extend_key_name :
  forall j key_name out,
    flatten_json j key_name [] = Ok out ->
    forall k,
      In k (keys out) ->
      (is_scalar j = true /\ k = drop_last key_name)
      \/ (is_scalar j = false /\ exists body, k = key_name ++ body).
Proof.
  intros j key_name out Hflat k Hk.
  destruct (flatten_json_leaves _ _ _ _ Hflat) as (leaves & Hwalk & ->).
  apply in_keys_record_all in Hk. destruct Hk as [Hk | []].
  unfold final_keys in Hk. apply in_map_iff in Hk.
  destruct Hk as ([p v] & <- & Hin). simpl.
  destruct (leaf_path_extends j key_name leaves p v Hwalk Hin)
    as [[Hs ->] | [Hs (body & ->)]]; [left; auto|].
  right. split; [exact Hs|]. exists body.
  now rewrite <- append_assoc, drop_last_sep.
Qed.

Lemma flatten_json_keys_extend_key_name_witness :
  flatten_json (JList [JInt 10; JInt 20]) "list_" []
  = Ok [("list_0", JInt 10); ("list_1", JInt 20)]
  /\ In "list_1" (keys [("list_0", JInt 10); ("list_1", JInt 20)])
  /\ ((is_scalar (JList [JInt 10; JInt 20]) = true
       /\ "list_1" = drop_last "list_")
      \/ (is_scalar (JList [JInt 10; JInt 20]) = false
          /\ exists body, "list_1" = "list_" ++ body)).
Proof.
  split; [reflexivity|].
  assert (Hin : In "list_1" (keys [("list_0", JInt 10); ("list_1", JInt 20)]))
    by (simpl; auto).
  split; [exact Hin|].
  exact (flatten_json_keys_extend_key_name (JList [JInt 10; JInt 20]) "list_"
           [("list_0", JInt 10); ("list_1", JInt 20)] eq_refl "list_1" Hin).
Defined.

(** ** Flattening a flattened mapping *)

Lemma segment_sep_not_identifier (a body : string) :
  a ++ "_" ++ body <> "identifier".
Proof.
  intros H.
  repeat (destruct a as [|? a]; simpl in H;
          [discriminate H | injection H as _ H]).
  destruct a; discriminate H.
Qed.

Lemma str_of_nat_not_identifier (i : nat) : str_of_nat i <> "identifier".
Proof. unfold str_of_nat. destruct (Nat.to_uint i); simpl; discriminate. Qed.

Lemma scalar_segment_is_index a i :
  is_scalar a = true -> identifier_segment a i = JStr (str_of_nat i).
Proof. destruct a; try discriminate; reflexivity. Qed.

Lemma root_key_not_identifier j leaves p v :
  leaf_paths j "" = Ok leaves ->
  In (p, v) leaves ->
  drop_last p <> "identifier".
Proof.
  assert (Hbelow : forall (child : json) seg here,
    leaf_paths child (seg ++ "_") = Ok here ->
    In (p, v) here ->
    (is_scalar child = true -> seg <> "identifier") ->
    drop_last p <> "identifier").
  { intros child seg here Hhere Hleaf Hseg.
    destruct (leaf_path_extends child _ _ _ _ Hhere Hleaf)
      as [[Hs ->] | [_ (body & ->)]].
    - rewrite drop_last_sep. auto.
    - rewrite <- append_assoc, drop_last_sep, append_assoc.
      apply segment_sep_not_identifier. }
  intros Hwalk Hin.
  destruct j as [| b | n | r | s | l | d];
    try (injection Hwalk as <-; destruct Hin as [[= <- <-] | []];
         discriminate).
  - rewrite leaf_paths_list in Hwalk.
    destruct (elem_paths_in _ _ _ _ _ Hwalk Hin)
      as (a & n & s & here & _ & Hseg & Hhere & Hleaf).
    apply (Hbelow a s here Hhere Hleaf).
    intros Hscalar. rewrite (scalar_segment_is_index a _ Hscalar) in Hseg.
    injection Hseg as <-. apply str_of_nat_not_identifier.
  - rewrite leaf_paths_dict in Hwalk.
    destruct (pair_paths_in _ _ _ _ Hwalk Hin)
      as (a & v0 & here & _ & Hid & Hhere & Hleaf).
    apply (Hbelow v0 a here Hhere Hleaf).
    intros _. now apply String.eqb_neq.
Qed.

Lemma pair_paths_flat (d : pydict) :
  Forall (fun kv => is_scalar (snd kv) = true) d ->
  ~ In "identifier" (keys d) ->
  pair_paths "" d = Ok (map (fun kv => (fst kv ++ "_", snd kv)) d).
Proof.
  induction d as [|[a v] rest IH]; intros Hscalar Hid; simpl; [reflexivity|].
  inversion Hscalar as [|? ? Hv Hrest]; subst. simpl in Hv, Hid.
  destruct (String.eqb a "identifier") eqn:E.
  { apply String.eqb_eq in E. subst a. tauto. }
  rewrite IH by tauto.
  destruct v; try discriminate; reflexivity.
Qed.

(** X (idempotence).  No key of the mapping that [flatten_json] builds
    for a document is ["identifier"], and flattening that mapping, taken
    as an object, gives the same mapping, entry for entry and in the same
    order. *)
Theorem flatten_json_idempotent :
  forall j out,
    flatten_json j "" [] = Ok out ->
    ~ In "identifier" (keys out)
    /\ flatten_json (JDict out) "" [] = Ok out.
Proof.
  intros j out Hflat.
  assert (Hid : ~ In "identifier" (keys out)).
  { destruct (flatten_json_leaves _ _ _ _ Hflat) as (leaves & Hwalk & ->).
    intros Hk. apply in_keys_record_all in Hk. destruct Hk as [Hk | []].
    unfold final_keys in Hk. apply in_map_iff in Hk.
    destruct Hk as ([p v] & Hp & Hin).
    exact (root_key_not_identifier j leaves p v Hwalk Hin Hp). }
  split; [exact Hid|].
  assert (Hscalar : Forall (fun kv => is_scalar (snd kv) = true) out).
  { apply Forall_forall. intros [k v] Hin.
    exact (proj1 (flatten_json_values j "" out k v Hflat Hin)). }
  assert (Hnd : NoDup (keys out)).
  { destruct (flatten_json_leaves _ _ _ _ Hflat) as (leaves & _ & ->).
    apply NoDup_keys_record_all. constructor. }
  rewrite flatten_json_walk, leaf_paths_dict, (pair_paths_flat out Hscalar Hid).
  simpl. f_equal.
  assert (Hkeys :
    final_keys (map (fun kv => (fst kv ++ "_", snd kv)) out) = keys out).
  { unfold final_keys, keys. rewrite map_map. apply map_ext.
    intros kv. simpl. apply drop_last_sep. }
  rewrite record_all_distinct.
  - simpl. rewrite map_map. rewrite <- (map_id out) at 2. apply map_ext.
    intros [k v]. simpl. now rewrite drop_last_sep.
  - now rewrite Hkeys.
  - intros k _ [].
Qed.

Lemma flatten_json_idempotent_witness :
  flatten_json doc_twins "" [] = Ok [("v_t", JStr "v"); ("v_u", JInt 2)]
  /\ ~ In "identifier" (keys [("v_t", JStr "v"); ("v_u", JInt 2)])
  /\ flatten_json (JDict [("v_t", JStr "v"); ("v_u", JInt 2)]) "" []
     = Ok [("v_t", JStr "v"); ("v_u", JInt 2)].
Proof.
  split; [reflexivity|].
  exact (flatten_json_idempotent doc_twins
           [("v_t", JStr "v"); ("v_u", JInt 2)] eq_refl).
Defined.

(** ** The order of the mapping *)

Lemma filter_filter {A : Type} (f g : A -> bool) (l : list A) :
  filter f (filter g l) = filter (fun x => f x && g x) l.
Proof.
  induction l as [|x l IH]; simpl; [reflexivity|].
  destruct (g x); simpl; [destruct (f x); simpl; now rewrite IH|].
  rewrite andb_false_r. exact IH.
Qed.

Lemma has_key_spec d k : has_key d k = true <-> In k (keys d).
Proof.
  unfold has_key. rewrite existsb_exists. split.
  - intros (k' & Hin & E). apply String.eqb_eq in E. now subst.
  - intros Hin. exists k. split; [exact Hin|apply String.eqb_refl].
Qed.

Lemma has_key_dict_set d k v k' :
  has_key (dict_set k v d) k' = (has_key d k' || String.eqb k' k).
Proof.
  apply eq_true_iff_eq.
  rewrite orb_true_iff, !has_key_spec, in_keys_dict_set, String.eqb_eq.
  tauto.
Qed.

Lemma keys_record_all leaves out :
  keys (record_all leaves out)
  = (keys out
     ++ filter (fun k => negb (has_key out k))
          (first_occurrences (final_keys leaves)))%list.
Proof.
  revert out. induction leaves as [|[p v] rest IH]; intros out; simpl.
  - now rewrite app_nil_r.
  - rewrite IH. unfold record_leaf. simpl.
    set (k := drop_last p).
    rewrite filter_filter.
    rewrite (filter_ext
               (fun k' => negb (has_key (dict_set k v out) k'))
               (fun k' => negb (has_key out k') && negb (String.eqb k' k))).
    2:{ intros k'. rewrite has_key_dict_set. apply negb_orb. }
    rewrite keys_dict_set.
    destruct (in_dec string_dec k (keys out)) as [Hin | Hout].
    + apply has_key_spec in Hin. rewrite Hin. reflexivity.
    + assert (Hk : has_key out k = false).
      { destruct (has_key out k) eqn:E; [|reflexivity].
        apply has_key_spec in E. contradiction. }
      rewrite Hk. simpl. now rewrite <- app_assoc.
Qed.

(** X (order).  [flatten_json] leaves the entries already in [out] in
    place and appends the new keys in the order in which the walk first
    reaches them: a key written again keeps the place of its first write.
    From an empty [out], the keys of the mapping are the final keys of
    the leaves in the order of their first occurrence. *)
Theorem flatten_json_key_order :
  forall j key_name out out',
    flatten_json j key_name out = Ok out' ->
    exists leaves,
      leaf_paths j key_name = Ok leaves
      /\ keys out'
         = (keys out
            ++ filter (fun k => negb (has_key out k))
                 (first_occurrences (final_keys leaves)))%list
      /\ (out = [] -> keys out' = first_occurrences (final_keys leaves)).
Proof.
  intros j key_name out out' Hflat.
  destruct (flatten_json_leaves _ _ _ _ Hflat) as (leaves & Hwalk & ->).
  exists leaves. split; [exact Hwalk|]. split; [apply keys_record_all|].
  intros ->. rewrite keys_record_all. simpl.
  clear. induction (first_occurrences (final_keys leaves)) as [|k l IH];
    simpl; [reflexivity|now rewrite IH].
Qed.

Lemma flatten_json_key_order_witness :
  flatten_json doc_revisit "" [] = Ok [("a_x_y", JInt 2); ("b", JInt 0)]
  /\ leaf_paths doc_revisit ""
     = Ok [("a_x_y_", JInt 1); ("b_", JInt 0); ("a_x_y_", JInt 2)]
  /\ keys [("a_x_y", JInt 2); ("b", JInt 0)]
     = first_occurrences
         (final_keys [("a_x_y_", JInt 1); ("b_", JInt 0); ("a_x_y_", JInt 2)]).
Proof.
  split; [reflexivity|]. split; [reflexivity|].
  destruct (flatten_json_key_order doc_revisit "" []
              [("a_x_y", JInt 2); ("b", JInt 0)] eq_refl)
    as (leaves & Hwalk & _ & Hkeys).
  injection Hwalk as <-.
  exact (Hkeys eq_refl).
Defined.

(** ** Flattening below a longer prefix *)

Lemma eqb_append_l (pre a b : string) :
  String.eqb (pre ++ a) (pre ++ b) = String.eqb a b.
Proof.
  induction pre as [|c pre IH]; simpl; [reflexivity|].
  now rewrite Ascii.eqb_refl.
Qed.

Lemma drop_last_append_l (pre p : string) :
  p <> "" -> drop_last (pre ++ p) = pre ++ drop_last p.
Proof.
  intros Hp. induction pre as [|c pre IH]; simpl; [reflexivity|].
  rewrite IH.
  destruct (pre ++ p) eqn:E; [|reflexivity].
  apply append_empty_inv in E. now destruct Hp.
Qed.

Lemma leaf_paths_shift (j : json) :
  forall pre path,
    leaf_paths j (pre ++ path)
    = (leaves <- leaf_paths j path ;; Ok (map (shift_leaf pre) leaves)).
Proof.
  induction j as [| b | n | r | s | l IH | d IH] using json_ind';
    intros pre path; try reflexivity.
  - rewrite !leaf_paths_list. generalize 0.
    induction IH as [|a rest Ha _ IHrest]; intros i; simpl; [reflexivity|].
    destruct (identifier_segment a i) as [| | | | s | |]; simpl;
      try reflexivity.
    rewrite !append_assoc, Ha, <- append_assoc.
    destruct (leaf_paths a ((path ++ s) ++ "_")) as [here|e]; simpl;
      [|reflexivity].
    rewrite IHrest.
    destruct (elem_paths path rest (S i)) as [after|e]; simpl;
      [|reflexivity].
    now rewrite map_app.
  - rewrite !leaf_paths_dict.
    induction IH as [|[a v] rest Hv _ IHrest]; simpl; [reflexivity|].
    destruct (String.eqb a "identifier"); [exact IHrest|].
    simpl in Hv. rewrite append_assoc, Hv.
    destruct (leaf_paths v (path ++ a ++ "_")) as [here|e]; simpl;
      [|reflexivity].
    rewrite IHrest.
    destruct (pair_paths path rest) as [after|e]; simpl; [|reflexivity].
    now rewrite map_app.
Qed.

Lemma dict_set_shift pre k v d :
  dict_set (pre ++ k) v (map (shift_leaf pre) d)
  = map (shift_leaf pre) (dict_set k v d).
Proof.
  induction d as [|[k' v'] d IH]; simpl; [reflexivity|].
  unfold shift_leaf at 1. simpl. rewrite eqb_append_l.
  destruct (String.eqb k k'); simpl; [reflexivity|].
  now rewrite IH.
Qed.

Lemma record_all_shift pre leaves out :
  Forall (fun leaf => fst leaf <> "") leaves ->
  record_all (map (shift_leaf pre) leaves) (map (shift_leaf pre) out)
  = map (shift_leaf pre) (record_all leaves out).
Proof.
  revert out. induction leaves as [|[p v] rest IH]; intros out Hne; simpl;
    [reflexivity|].
  inversion Hne as [|? ? Hp Hrest]; subst. simpl in Hp.
  change (record_leaf (map (shift_leaf pre) out) (shift_leaf pre (p, v)))
    with (dict_set (drop_last (pre ++ p)) v (map (shift_leaf pre) out)).
  rewrite drop_last_append_l by exact Hp.
  rewrite dict_set_shift.
  now apply IH.
Qed.

(** X (prefix shift).  For an object or an array, flattening under a
    longer prefix only lengthens the keys: the mapping built under
    [pre + key_name] is the one built under [key_name] with [pre] put
    before every key, entry for entry and in the same order. *)
Theorem flatten_json_under_longer_prefix :
  forall j pre key_name out,
    is_scalar j = false ->
    flatten_json j key_name [] = Ok out ->
    flatten_json j (pre ++ key_name) []
    = Ok (map (fun kv => (pre ++ fst kv, snd kv)) out).
Proof.
  intros j pre key_name out Hj Hflat.
  destruct (flatten_json_leaves _ _ _ _ Hflat) as (leaves & Hwalk & ->).
  rewrite flatten_json_walk, leaf_paths_shift, Hwalk. simpl. f_equal.
  apply (record_all_shift pre leaves []).
  apply Forall_forall. intros [p v] Hin. simpl.
  destruct (leaf_path_extends j key_name leaves p v Hwalk Hin)
    as [[Hs _] | [_ (body & ->)]]; [congruence|].
  intros E. apply append_empty_inv in E. destruct E as [_ E].
  apply append_empty_inv in E. destruct E as [_ E]. discriminate.
Qed.

Lemma flatten_json_under_longer_prefix_witness :
  is_scalar doc_twins = false
  /\ flatten_json doc_twins "" [] = Ok [("v_t", JStr "v"); ("v_u", JInt 2)]
  /\ flatten_json doc_twins "rows_" []
     = Ok [("rows_v_t", JStr "v"); ("rows_v_u", JInt 2)].
Proof.
  split; [reflexivity|]. split; [reflexivity|].
  exact (flatten_json_under_longer_prefix doc_twins "rows_" ""
           [("v_t", JStr "v"); ("v_u", JInt 2)] eq_refl eq_refl).
Defined.
